(** * FAST corner detection (lafin/fast, main.go): a shallow embedding

    The Go type [int] (64 bits wide on the usual targets) is modelled as
    [Z] with the two's complement wrap-around written out ([wrap]); a
    [[16]int] array is a [list Z] of
    length 16 read with a default; a [[]int] slice is a [list Z] whose
    indexing can panic.  Loops whose variable is changed by the body carry
    an explicit fuel, and running out of it is an outcome of its own which
    is proved unreachable. *)

From Stdlib Require Import ZArith List Bool Lia Sorting.Sorted.
From Stdlib Require Import Strings.Byte.
From stdpp Require gmap.
Import ListNotations.
Local Open Scope Z_scope.

(* ================================================================== *)
(** ** Machine integers *)

Module Int64.

Definition min_int : Z := - 2 ^ 63.
Definition max_int : Z := 2 ^ 63 - 1.

(** Two's complement reduction of an exact result to 64 bits. *)
Definition wrap (z : Z) : Z := (z + 2 ^ 63) mod 2 ^ 64 - 2 ^ 63.

Definition in_range (z : Z) : Prop := min_int <= z <= max_int.

Definition add (a b : Z) : Z := wrap (a + b).
Definition sub (a b : Z) : Z := wrap (a - b).
Definition mul (a b : Z) : Z := wrap (a * b).
Definition neg (a : Z) : Z := wrap (- a).

End Int64.

Import Int64.

(* ================================================================== *)
(** ** Outcomes of a Go computation *)

Inductive outcome (A : Type) : Type :=
| Returns (a : A)      (* normal return *)
| Panics               (* run-time panic: index out of range *)
| OutOfFuel.           (* the model's loop budget ran out *)

Arguments Returns {A} a.
Arguments Panics {A}.
Arguments OutOfFuel {A}.

Definition bind {A B : Type} (m : outcome A) (k : A -> outcome B) : outcome B :=
  match m with
  | Returns a => k a
  | Panics => Panics
  | OutOfFuel => OutOfFuel
  end.

Notation "x <- m ;; k" := (bind m (fun x => k))
  (at level 61, m at next level, right associativity).

(** [s[w]] on a slice. *)
Definition index (s : list Z) (w : Z) : outcome Z :=
  if w <? 0 then Panics
  else match nth_error s (Z.to_nat w) with
       | Some v => Returns v
       | None => Panics
       end.

(** [a[k]] on a fixed-size array; the callers only use indices below 16. *)
Definition get16 (a : list Z) (k : Z) : Z := nth (Z.to_nat k) a 0.

(** The values taken by the variable of [for v := lo; v < hi; v++] when the
    body leaves [v] alone. *)
Definition zrange (lo hi : Z) : list Z :=
  map (fun k => lo + Z.of_nat k) (seq 0 (Z.to_nat (hi - lo))).

(* ================================================================== *)
(** ** Pixel comparator *)

Definition isBrighter (circlePixel p threshold : Z) : bool :=
  Int64.sub circlePixel p >? threshold.

Definition isDarker (circlePixel p threshold : Z) : bool :=
  Int64.sub p circlePixel >? threshold.

(* ================================================================== *)
(** ** Fast rejection test *)

Definition isTriviallyExcluded (circlePixels : list Z) (p threshold : Z) : bool :=
  let count := 0 in
  let circleBottom := get16 circlePixels 8 in
  let circleLeft := get16 circlePixels 12 in
  let circleRight := get16 circlePixels 4 in
  let circleTop := get16 circlePixels 0 in
  let count := if isBrighter circleTop p threshold then Int64.add count 1 else count in
  let count := if isBrighter circleRight p threshold then Int64.add count 1 else count in
  let count := if isBrighter circleBottom p threshold then Int64.add count 1 else count in
  let count := if isBrighter circleLeft p threshold then Int64.add count 1 else count in
  if count <? 3 then
    let count := 0 in
    let count := if isDarker circleTop p threshold then Int64.add count 1 else count in
    let count := if isDarker circleRight p threshold then Int64.add count 1 else count in
    let count := if isDarker circleBottom p threshold then Int64.add count 1 else count in
    let count := if isDarker circleLeft p threshold then Int64.add count 1 else count in
    if count <? 3 then true else false
  else false.

(* ================================================================== *)
(** ** Segment test *)

(** The inner loop [for y := 0; y < 9; y++] of [isCorner] for one start [x],
    run on the remaining values [ys] of [y] with the current flags; both
    [break]s leave the loop with the flags as they are. *)
Fixpoint arcLoop (p : Z) (circlePixels : list Z) (threshold x : Z)
         (ys : list Z) (brighter darker : bool) : bool * bool :=
  match ys with
  | [] => (brighter, darker)
  | y :: ys' =>
      let circlePixel := get16 circlePixels (Z.land (Int64.add x y) 15) in
      let notB := negb (isBrighter p circlePixel threshold) in
      let brighter := if notB then false else brighter in
      if notB && negb darker then (brighter, darker)
      else
        let notD := negb (isDarker p circlePixel threshold) in
        let darker := if notD then false else darker in
        if notD && negb brighter then (brighter, darker)
        else arcLoop p circlePixels threshold x ys' brighter darker
  end.

(** The outer loop [for x := 0; x < 16; x++] of [isCorner] on the remaining
    starts [xs]. *)
Fixpoint startLoop (p : Z) (circlePixels : list Z) (threshold : Z)
         (xs : list Z) : bool :=
  match xs with
  | [] => false
  | x :: xs' =>
      let '(brighter, darker) :=
        arcLoop p circlePixels threshold x (zrange 0 9) true true in
      if brighter || darker then true
      else startLoop p circlePixels threshold xs'
  end.

(** The main loop of [isCorner], that is [isCorner] without its first
    statement. *)
Definition segmentTest (p : Z) (circlePixels : list Z) (threshold : Z) : bool :=
  startLoop p circlePixels threshold (zrange 0 16).

Definition isCorner (p : Z) (circlePixels : list Z) (threshold : Z) : bool :=
  if isTriviallyExcluded circlePixels p threshold then false
  else segmentTest p circlePixels threshold.

(* ================================================================== *)
(** ** Circle geometry *)

Definition getCircleOffsets (width : Z) : list Z :=
  let c0 := Int64.sub (Int64.sub (Int64.neg width) width) width in
  let c1 := Int64.add c0 1 in
  let c2 := Int64.add (Int64.add c1 width) 1 in
  let c3 := Int64.add (Int64.add c2 width) 1 in
  let c4 := Int64.add c3 width in
  let c5 := Int64.add c4 width in
  let c6 := Int64.sub (Int64.add c5 width) 1 in
  let c7 := Int64.sub (Int64.add c6 width) 1 in
  let c8 := Int64.sub c7 1 in
  let c9 := Int64.sub c8 1 in
  let c10 := Int64.sub (Int64.sub c9 width) 1 in
  let c11 := Int64.sub (Int64.sub c10 width) 1 in
  let c12 := Int64.sub c11 width in
  let c13 := Int64.sub c12 width in
  let c14 := Int64.add (Int64.sub c13 width) 1 in
  let c15 := Int64.add (Int64.sub c14 width) 1 in
  [c0; c1; c2; c3; c4; c5; c6; c7; c8; c9; c10; c11; c12; c13; c14; c15].

(* ================================================================== *)
(** ** Scan driver *)

(** The loop [for k := 0; k < 16; k++] filling [circlePixels]: one slice
    read per offset, in index order. *)
Fixpoint readCircle (pixels : list Z) (w : Z) (offsets : list Z) : outcome (list Z) :=
  match offsets with
  | [] => Returns []
  | o :: os =>
      v <- index pixels (Int64.add w o) ;;
      vs <- readCircle pixels w os ;;
      Returns (v :: vs)
  end.

Section Scan.

Variables (pixels : list Z) (width height threshold : Z).

(** [for j := 3; j < width-3; j++] of row [i], entered with the current [j]
    and the corners collected so far. *)
Fixpoint rowLoop (circleOffsets : list Z) (i : Z) (fuel : nat) (j : Z)
         (corners : list Z) : outcome (list Z) :=
  if j <? Int64.sub width 3 then
    match fuel with
    | O => OutOfFuel
    | S fuel' =>
        let w := Int64.add (Int64.mul i width) j in
        p <- index pixels w ;;
        circlePixels <- readCircle pixels w circleOffsets ;;
        if isCorner p circlePixels threshold then
          let corners := corners ++ [j; i] in
          let j := Int64.add j 3 in
          rowLoop circleOffsets i fuel' (Int64.add j 1) corners
        else
          rowLoop circleOffsets i fuel' (Int64.add j 1) corners
    end
  else Returns corners.

(** [for i := 3; i < height-3; i++]. *)
Fixpoint imageLoop (circleOffsets : list Z) (rowFuel : nat) (fuel : nat) (i : Z)
         (corners : list Z) : outcome (list Z) :=
  if i <? Int64.sub height 3 then
    match fuel with
    | O => OutOfFuel
    | S fuel' =>
        corners <- rowLoop circleOffsets i rowFuel 3 corners ;;
        imageLoop circleOffsets rowFuel fuel' (Int64.add i 1) corners
    end
  else Returns corners.

Definition findCorners : outcome (list Z) :=
  let circleOffsets := getCircleOffsets width in
  imageLoop circleOffsets
            (Z.to_nat (Int64.sub width 3 - 3))
            (Z.to_nat (Int64.sub height 3 - 3))
            3 [].

End Scan.

(* ================================================================== *)
(** ** Specification side: the circle layout and the corner criterion *)

(** The radius-3 circle as (col, row) displacements from the centre, in
    index order, clockwise from the top. *)
Definition circleLayout : list (Z * Z) :=
  [ (0, -3); (1, -3); (2, -2); (3, -1); (3, 0); (3, 1); (2, 2); (1, 3);
    (0, 3); (-1, 3); (-2, 2); (-3, 1); (-3, 0); (-3, -1); (-2, -2); (-1, -3) ].

(** The circle indices of the top, right, bottom and left samples. *)
Definition compass : list Z := [0; 4; 8; 12].

(** How many entries of [l] satisfy [f]. *)
Definition countIf (f : Z -> bool) (l : list Z) : nat := length (filter f l).

(** The acceptance criterion in the words of the specification, over a
    subtraction [diff]: three of the four compass samples exceed the
    candidate (or are exceeded by it) by more than the threshold, and some
    arc of nine consecutive samples does so throughout. *)
Definition cornerCriterion (diff : Z -> Z -> Z) (p : Z) (cp : list Z) (t : Z) : Prop :=
  ((3 <= countIf (fun k => diff (get16 cp k) p >? t) compass)%nat \/
   (3 <= countIf (fun k => diff p (get16 cp k) >? t) compass)%nat) /\
  exists x, 0 <= x < 16 /\
    ((forall y, 0 <= y < 9 -> diff (get16 cp ((x + y) mod 16)) p > t) \/
     (forall y, 0 <= y < 9 -> diff p (get16 cp ((x + y) mod 16)) > t)).

(* ================================================================== *)
(** ** Specification side: the scan *)

(** The flat result [x0, y0, x1, y1, ...] of [findCorners] and its reading
    as coordinate pairs. *)
Fixpoint flatten (ps : list (Z * Z)) : list Z :=
  match ps with
  | [] => []
  | (x, y) :: ps' => x :: y :: flatten ps'
  end.

Fixpoint pairs (l : list Z) : list (Z * Z) :=
  match l with
  | x :: y :: l' => (x, y) :: pairs l'
  | _ => []
  end.

(** The test applied to the candidate at row [i], column [j]: the reads of
    the body of the column loop, then [isCorner]. *)
Definition candidate (pixels : list Z) (width threshold i j : Z) : outcome bool :=
  let w := Int64.add (Int64.mul i width) j in
  p <- index pixels w ;;
  circlePixels <- readCircle pixels w (getCircleOffsets width) ;;
  Returns (isCorner p circlePixels threshold).

Definition accepted (pixels : list Z) (width threshold i j : Z) : bool :=
  match candidate pixels width threshold i j with
  | Returns true => true
  | _ => false
  end.

(** One row in the words of the specification: the columns are taken left
    to right; a column is tested unless it is one of the three that follow
    an accepted one; an accepted column is reported with its row. *)
Fixpoint selectRow (accept : Z -> bool) (row : Z) (skip : nat) (cols : list Z)
  : list (Z * Z) :=
  match cols with
  | [] => []
  | c :: cols' =>
      match skip with
      | S k => selectRow accept row k cols'
      | O => if accept c then (c, row) :: selectRow accept row 3 cols'
             else selectRow accept row 0 cols'
      end
  end.

(** The whole scan in the words of the specification: rows 3 to
    [height-4] top to bottom, each row over columns 3 to [width-4], every
    row starting with nothing to skip. *)
Definition scanSpec (pixels : list Z) (width height threshold : Z) : list (Z * Z) :=
  flat_map
    (fun row => selectRow (accepted pixels width threshold row) row 0
                          (zrange 3 (width - 3)))
    (zrange 3 (height - 3)).

(** Row-major order with a gap of four columns inside a row. *)
Definition scanOrder (a b : Z * Z) : Prop :=
  snd a < snd b \/ (snd a = snd b /\ fst a + 4 <= fst b).

(* ================================================================== *)
(** ** Sample inputs *)

(** A row-major image from a function of column and row. *)
Definition image (w h : Z) (f : Z -> Z -> Z) : list Z :=
  flat_map (fun r => map (fun c => f c r) (zrange 0 w)) (zrange 0 h).

(** Samples 1 to 9 exceed the candidate, the others equal it. *)
Definition arcSample : list Z :=
  [0; 10; 10; 10; 10; 10; 10; 10; 10; 10; 0; 0; 0; 0; 0; 0].

(** Samples 0 to 8 exceed the candidate, the others equal it. *)
Definition topArcSample : list Z :=
  [10; 10; 10; 10; 10; 10; 10; 10; 10; 0; 0; 0; 0; 0; 0; 0].

(** A 14 x 9 image, dark but for three bright pixels in row 4. *)
Definition dots : list Z :=
  image 14 9 (fun c r => if (r =? 4) && ((c =? 3) || (c =? 4) || (c =? 8))
                         then 100 else 0).

(** A 14 x 9 image of one intensity. *)
Definition flat50 : list Z := image 14 9 (fun _ _ => 50).

(** The image [dots] as a gray buffer: byte 100 for the bright pixels. *)
Definition dotsGray : list byte :=
  map (fun v => if v =? 0 then "000"%byte else "d"%byte) dots.

(* ================================================================== *)
(** ** Transformations of a circle sample *)

(** The sample seen after a quarter turn of the image: index [k] holds
    what index [k + 4] held. *)
Definition quarterTurn (cp : list Z) : list Z := skipn 4 cp ++ firstn 4 cp.

(* ================================================================== *)
(** ** The scan over a map (package [fast])

    [FindCorners] of package [fast] takes the pixels as a [map[int]int];
    its helpers are those of the scan over a slice.  Reading a key that is
    absent gives 0 and never panics. *)

Module GoMap.

Definition t : Type := stdpp.gmap.gmap Z Z.

(** [m[k]] on a map: the zero value when the key is absent. *)
Definition get (m : t) (k : Z) : Z :=
  match @stdpp.base.lookup Z Z (stdpp.gmap.gmap Z Z) _ k m with
  | Some v => v
  | None => 0
  end.

Definition empty : t := @stdpp.base.empty (stdpp.gmap.gmap Z Z) _.

(** The map with key [k] bound to the [k]-th element of a slice. *)
Definition ofSlice (l : list Z) : t :=
  @stdpp.fin_maps.map_seqZ Z (stdpp.gmap.gmap Z Z) _ _ 0 l.

End GoMap.

(** The loop [for k := 0; k < 16; k++] filling [circlePixels] from the
    map. *)
Fixpoint readCircleMap (pixels : GoMap.t) (w : Z) (offsets : list Z) : list Z :=
  match offsets with
  | [] => []
  | o :: os => GoMap.get pixels (Int64.add w o) :: readCircleMap pixels w os
  end.

Section ScanMap.

Variables (pixels : GoMap.t) (width height threshold : Z).

Fixpoint rowLoopMap (circleOffsets : list Z) (i : Z) (fuel : nat) (j : Z)
         (corners : list Z) : outcome (list Z) :=
  if j <? Int64.sub width 3 then
    match fuel with
    | O => OutOfFuel
    | S fuel' =>
        let w := Int64.add (Int64.mul i width) j in
        let p := GoMap.get pixels w in
        let circlePixels := readCircleMap pixels w circleOffsets in
        if isCorner p circlePixels threshold then
          let corners := corners ++ [j; i] in
          let j := Int64.add j 3 in
          rowLoopMap circleOffsets i fuel' (Int64.add j 1) corners
        else
          rowLoopMap circleOffsets i fuel' (Int64.add j 1) corners
    end
  else Returns corners.

Fixpoint imageLoopMap (circleOffsets : list Z) (rowFuel : nat) (fuel : nat) (i : Z)
         (corners : list Z) : outcome (list Z) :=
  if i <? Int64.sub height 3 then
    match fuel with
    | O => OutOfFuel
    | S fuel' =>
        corners <- rowLoopMap circleOffsets i rowFuel 3 corners ;;
        imageLoopMap circleOffsets rowFuel fuel' (Int64.add i 1) corners
    end
  else Returns corners.

Definition FindCorners : outcome (list Z) :=
  let circleOffsets := getCircleOffsets width in
  imageLoopMap circleOffsets
               (Z.to_nat (Int64.sub width 3 - 3))
               (Z.to_nat (Int64.sub height 3 - 3))
               3 [].

End ScanMap.

(** The test of the candidate at row [i], column [j] on a map. *)
Definition acceptedMap (pixels : GoMap.t) (width threshold i j : Z) : bool :=
  let w := Int64.add (Int64.mul i width) j in
  isCorner (GoMap.get pixels w) (readCircleMap pixels w (getCircleOffsets width))
           threshold.

(** The scan of the specification with the test on a map. *)
Definition scanSpecMap (pixels : GoMap.t) (width height threshold : Z)
  : list (Z * Z) :=
  flat_map
    (fun row => selectRow (acceptedMap pixels width threshold row) row 0
                          (zrange 3 (width - 3)))
    (zrange 3 (height - 3)).

(* ================================================================== *)
(** ** The use of the scan in [main]

    Between decoding the input and encoding the output, [main] copies the
    gray bytes into a slice of [int], calls [findCorners] with threshold 20
    and sets one pixel per coordinate pair of the result.  The image library
    stays outside: the gray buffer is a list of bytes, and the calls of
    [Set] are collected in order. *)

(** [make([]int, n)]. *)
Definition makeSlice (n : Z) : outcome (list Z) :=
  if n <? 0 then Panics else Returns (repeat 0 (Z.to_nat n)).

(** [s[k] = v] on a slice. *)
Definition assign (s : list Z) (k v : Z) : outcome (list Z) :=
  if (k <? 0) || (Z.of_nat (length s) <=? k) then Panics
  else Returns (firstn (Z.to_nat k) s ++ v :: skipn (S (Z.to_nat k)) s).

(** [gray.Pix[k]] on a slice of bytes, converted by [int(...)]. *)
Definition indexByte (s : list byte) (k : Z) : outcome Z :=
  if k <? 0 then Panics
  else match nth_error s (Z.to_nat k) with
       | Some b => Returns (Z.of_N (Byte.to_N b))
       | None => Panics
       end.

(** [for index := 0; index < w*h; index++ { pixList[index] = int(gray.Pix[index]) }]. *)
Fixpoint fillLoop (pix : list byte) (w h : Z) (fuel : nat) (index : Z)
         (pixList : list Z) : outcome (list Z) :=
  if index <? Int64.mul w h then
    match fuel with
    | O => OutOfFuel
    | S fuel' =>
        v <- indexByte pix index ;;
        pixList <- assign pixList index v ;;
        fillLoop pix w h fuel' (Int64.add index 1) pixList
    end
  else Returns pixList.

(** [for i := 0; i < len(cornerList); i += 2 { newImage.Set(cornerList[i], cornerList[i+1], red) }]:
    the arguments of the calls of [Set]. *)
Fixpoint markLoop (cornerList : list Z) (fuel : nat) (i : Z) (marks : list (Z * Z))
  : outcome (list (Z * Z)) :=
  if i <? Z.of_nat (length cornerList) then
    match fuel with
    | O => OutOfFuel
    | S fuel' =>
        x <- index cornerList i ;;
        y <- index cornerList (Int64.add i 1) ;;
        markLoop cornerList fuel' (Int64.add i 2) (marks ++ [(x, y)])
    end
  else Returns marks.

(** Lines 225 to 241 of [main] for a gray buffer [pix] and the bounds
    [w], [h] of the image: the pixels [Set] to red. *)
Definition mainMarks (pix : list byte) (w h : Z) : outcome (list (Z * Z)) :=
  pixList <- makeSlice (Int64.mul w h) ;;
  pixList <- fillLoop pix w h (Z.to_nat (Int64.mul w h)) 0 pixList ;;
  cornerList <- findCorners pixList w h 20 ;;
  markLoop cornerList (length cornerList) 0 [].

(* ================================================================== *)
(** ** Facts about 64-bit arithmetic *)

Lemma wrap_small z : in_range z -> wrap z = z.
Proof.
  unfold in_range, min_int, max_int, wrap. intros H.
  rewrite Z.mod_small; lia.
Qed.

Lemma wrap_in_range z : in_range (wrap z).
Proof.
  unfold in_range, min_int, max_int, wrap.
  pose proof (Z.mod_pos_bound (z + 2 ^ 63) (2 ^ 64) ltac:(lia)). lia.
Qed.

Lemma wrap_plus_l a b : wrap (wrap a + b) = wrap (a + b).
Proof.
  unfold wrap. f_equal.
  replace ((a + 2 ^ 63) mod 2 ^ 64 - 2 ^ 63 + b + 2 ^ 63)
    with ((a + 2 ^ 63) mod 2 ^ 64 + b) by lia.
  rewrite Zplus_mod_idemp_l. f_equal. lia.
Qed.

Lemma wrap_plus_r a b : wrap (a + wrap b) = wrap (a + b).
Proof. rewrite Z.add_comm, wrap_plus_l. f_equal. lia. Qed.

Lemma wrap_minus_l a b : wrap (wrap a - b) = wrap (a - b).
Proof. unfold Z.sub. apply wrap_plus_l. Qed.

Lemma wrap_neg_half z : 2 ^ 63 <= z < 2 ^ 64 -> wrap z = z - 2 ^ 64.
Proof.
  intros H. unfold wrap.
  replace (z + 2 ^ 63) with ((z - 2 ^ 63) + 1 * 2 ^ 64) by lia.
  rewrite Z_mod_plus_full, Z.mod_small; lia.
Qed.

Lemma add_wrap a b : Int64.add (wrap a) b = wrap (a + b).
Proof. apply wrap_plus_l. Qed.

Lemma sub_wrap a b : Int64.sub (wrap a) b = wrap (a - b).
Proof. apply wrap_minus_l. Qed.

(* ================================================================== *)
(** ** Ranges and small list facts *)

Lemma zrange_nil lo hi : hi <= lo -> zrange lo hi = [].
Proof.
  intros H. unfold zrange. replace (Z.to_nat (hi - lo)) with 0%nat by lia.
  reflexivity.
Qed.

Lemma zrange_cons lo hi : lo < hi -> zrange lo hi = lo :: zrange (lo + 1) hi.
Proof.
  intros H. unfold zrange.
  replace (Z.to_nat (hi - lo)) with (S (Z.to_nat (hi - (lo + 1)))) by lia.
  cbn [seq map]. f_equal; [lia|].
  rewrite <- seq_shift, map_map. apply map_ext. intros k. lia.
Qed.

Lemma In_zrange x lo hi : In x (zrange lo hi) <-> lo <= x < hi.
Proof.
  unfold zrange. rewrite in_map_iff. split.
  - intros [k [<- Hk]]. apply in_seq in Hk. lia.
  - intros H. exists (Z.to_nat (x - lo)). split; [lia|]. apply in_seq. lia.
Qed.

Lemma pairs_flatten ps : pairs (flatten ps) = ps.
Proof.
  induction ps as [|[x y] ps IH]; cbn; [reflexivity|]. now rewrite IH.
Qed.

Lemma flatten_app ps qs : flatten (ps ++ qs) = flatten ps ++ flatten qs.
Proof.
  induction ps as [|[x y] ps IH]; cbn; [reflexivity|]. now rewrite IH.
Qed.

(* ================================================================== *)
(** ** The comparator and the segment test *)

Lemma isBrighter_gt a b t : isBrighter a b t = true <-> Int64.sub a b > t.
Proof. unfold isBrighter. rewrite Z.gtb_ltb, Z.ltb_lt. lia. Qed.

Lemma isDarker_gt a b t : isDarker a b t = true <-> Int64.sub b a > t.
Proof. unfold isDarker. rewrite Z.gtb_ltb, Z.ltb_lt. lia. Qed.

(** The [break]s of the inner loop do not change the flags it ends with:
    each flag survives exactly when every sample passed its comparison. *)
Lemma arcLoop_flags p cp t x ys b d :
  arcLoop p cp t x ys b d =
  (b && forallb (fun y => isBrighter p (get16 cp (Z.land (Int64.add x y) 15)) t) ys,
   d && forallb (fun y => isDarker p (get16 cp (Z.land (Int64.add x y) 15)) t) ys).
Proof.
  revert b d. induction ys as [|y ys IH]; intros b d.
  - cbn. now rewrite !andb_true_r.
  - cbn [arcLoop forallb].
    destruct (isBrighter p (get16 cp (Z.land (Int64.add x y) 15)) t);
      destruct (isDarker p (get16 cp (Z.land (Int64.add x y) 15)) t);
      destruct b; destruct d; cbn; try rewrite IH; cbn;
      rewrite ?andb_false_r; reflexivity.
Qed.

Lemma startLoop_existsb p cp t xs :
  startLoop p cp t xs =
  existsb (fun x =>
    forallb (fun y => isBrighter p (get16 cp (Z.land (Int64.add x y) 15)) t) (zrange 0 9)
    || forallb (fun y => isDarker p (get16 cp (Z.land (Int64.add x y) 15)) t) (zrange 0 9))
    xs.
Proof.
  induction xs as [|x xs IH]; [reflexivity|].
  cbn [startLoop existsb]. rewrite arcLoop_flags, IH. cbn [andb].
  destruct (forallb _ _ || forallb _ _); reflexivity.
Qed.

Lemma circle_index x y :
  0 <= x < 16 -> 0 <= y < 9 -> Z.land (Int64.add x y) 15 = (x + y) mod 16.
Proof.
  intros Hx Hy. unfold Int64.add.
  rewrite wrap_small by (unfold in_range, min_int, max_int; lia).
  change 15 with (Z.ones 4). rewrite Z.land_ones by lia. reflexivity.
Qed.

(** The main loop accepts exactly when some start has nine consecutive
    samples on one side of the candidate. *)
Lemma segmentTest_arc p cp t :
  segmentTest p cp t = true <->
  exists x, 0 <= x < 16 /\
    ((forall y, 0 <= y < 9 -> Int64.sub (get16 cp ((x + y) mod 16)) p > t) \/
     (forall y, 0 <= y < 9 -> Int64.sub p (get16 cp ((x + y) mod 16)) > t)).
Proof.
  unfold segmentTest. rewrite startLoop_existsb, existsb_exists.
  split.
  - intros [x [Hx H]]. apply In_zrange in Hx. exists x. split; [lia|].
    apply orb_true_iff in H. destruct H as [H|H]; [right|left];
      intros y Hy; rewrite forallb_forall in H;
      specialize (H y (proj2 (In_zrange y 0 9) Hy));
      rewrite circle_index in H by lia.
    + now apply isBrighter_gt in H.
    + now apply isDarker_gt in H.
  - intros [x [Hx H]]. exists x. split; [apply In_zrange; lia|].
    apply orb_true_iff. destruct H as [H|H]; [right|left];
      apply forallb_forall; intros y Hy; apply In_zrange in Hy;
      rewrite circle_index by lia.
    + apply isDarker_gt. apply H. lia.
    + apply isBrighter_gt. apply H. lia.
Qed.

(** The rejection test lets a candidate through exactly when three of the
    four compass samples lie on one side of it. *)
Lemma isTriviallyExcluded_compass cp p t :
  isTriviallyExcluded cp p t = false <->
  ((3 <= countIf (fun k => Int64.sub (get16 cp k) p >? t) compass)%nat \/
   (3 <= countIf (fun k => Int64.sub p (get16 cp k) >? t) compass)%nat).
Proof.
  unfold isTriviallyExcluded, isBrighter, isDarker, countIf, compass.
  cbn [filter].
  destruct (Int64.sub (get16 cp 0) p >? t);
    destruct (Int64.sub (get16 cp 4) p >? t);
    destruct (Int64.sub (get16 cp 8) p >? t);
    destruct (Int64.sub (get16 cp 12) p >? t);
    destruct (Int64.sub p (get16 cp 0) >? t);
    destruct (Int64.sub p (get16 cp 4) >? t);
    destruct (Int64.sub p (get16 cp 8) >? t);
    destruct (Int64.sub p (get16 cp 12) >? t);
    vm_compute; split; intros H; try reflexivity; try discriminate;
    try (left; repeat constructor; fail); try (right; repeat constructor; fail);
    try (destruct H as [H|H]; repeat match goal with
                                     | H : le _ _ |- _ => inversion H; clear H
                                     end).
Qed.

Lemma isCorner_criterion p cp t :
  isCorner p cp t = true <-> cornerCriterion Int64.sub p cp t.
Proof.
  unfold isCorner, cornerCriterion.
  rewrite <- isTriviallyExcluded_compass, <- segmentTest_arc.
  destruct (isTriviallyExcluded cp p t); intuition congruence.
Qed.

Lemma countIf_ext f g l :
  (forall k, In k l -> f k = g k) -> countIf f l = countIf g l.
Proof.
  intros H. unfold countIf. f_equal. now apply filter_ext_in.
Qed.

(** The criterion only looks at differences between the candidate and the
    sixteen samples. *)
Lemma cornerCriterion_ext d1 d2 p cp t :
  (forall k, 0 <= k < 16 ->
     d1 (get16 cp k) p = d2 (get16 cp k) p /\ d1 p (get16 cp k) = d2 p (get16 cp k)) ->
  cornerCriterion d1 p cp t -> cornerCriterion d2 p cp t.
Proof.
  intros E [Hc [x [Hx Ha]]]. split.
  - destruct Hc as [Hc|Hc]; [left|right];
      erewrite countIf_ext; try exact Hc;
      intros k Hk; cbn beta;
      (assert (0 <= k < 16) as Hr
         by (unfold compass in Hk; cbn in Hk; lia));
      destruct (E k Hr) as [E1 E2]; congruence.
  - exists x. split; [exact Hx|].
    destruct Ha as [Ha|Ha]; [left|right]; intros y Hy;
      (assert (0 <= (x + y) mod 16 < 16) as Hr by (apply Z.mod_pos_bound; lia));
      destruct (E _ Hr) as [E1 E2]; specialize (Ha y Hy); congruence.
Qed.

(* ================================================================== *)
(** ** Circle geometry *)

(** Every offset is the 64-bit value of [row * width + col] on the layout. *)
Lemma getCircleOffsets_wrap width :
  getCircleOffsets width =
  map (fun cr => wrap (snd cr * width + fst cr)) circleLayout.
Proof.
  unfold getCircleOffsets, circleLayout, Int64.neg. cbn [map fst snd].
  repeat (rewrite sub_wrap || rewrite add_wrap).
  repeat (apply (f_equal2 (@cons Z)); [f_equal; lia|]).
  reflexivity.
Qed.

Lemma getCircleOffsets_exact width :
  0 < width -> 3 * width + 3 <= max_int ->
  getCircleOffsets width = map (fun cr => snd cr * width + fst cr) circleLayout.
Proof.
  intros Hpos Hmax. rewrite getCircleOffsets_wrap.
  apply map_ext_in. intros [c r] Hin. cbn [fst snd].
  apply wrap_small. unfold in_range, min_int, max_int in *.
  unfold circleLayout in Hin. cbn in Hin.
  repeat (destruct Hin as [Hin|Hin]; [inversion Hin; subst; lia|]).
  contradiction.
Qed.

(** C4. For every positive width [getCircleOffsets] returns sixteen offsets,
    the k-th being [row_k * width + col_k] for the k-th entry (col_k, row_k)
    of the clockwise radius-3 layout that starts at the top.  The sums are
    those of Go's [int]; whenever [3 * width + 3] fits in an [int] they are
    the exact integers, so that offsets 0, 4, 8 and 12 are [-3 * width],
    [3], [3 * width] and [-3], and each offset differs from the one before
    by one of 1, -1, width, -width, width+1, width-1, -(width+1),
    -(width-1). *)
Theorem getCircleOffsets_layout (width : Z) :
  0 < width ->
  length (getCircleOffsets width) = 16%nat /\
  getCircleOffsets width =
    map (fun cr => Int64.add (Int64.mul (snd cr) width) (fst cr)) circleLayout /\
  (3 * width + 3 <= max_int ->
   getCircleOffsets width = map (fun cr => snd cr * width + fst cr) circleLayout /\
   nth 0 (getCircleOffsets width) 0 = -3 * width /\
   nth 4 (getCircleOffsets width) 0 = 3 /\
   nth 8 (getCircleOffsets width) 0 = 3 * width /\
   nth 12 (getCircleOffsets width) 0 = -3 /\
   forall k, (k < 15)%nat ->
     In (nth (S k) (getCircleOffsets width) 0 - nth k (getCircleOffsets width) 0)
        [1; -1; width; - width; width + 1; width - 1; - (width + 1); - (width - 1)]).
Proof.
  intros Hpos. split; [reflexivity|]. split.
  - rewrite getCircleOffsets_wrap. apply map_ext. intros [c r]. cbn [fst snd].
    unfold Int64.add, Int64.mul. now rewrite wrap_plus_l.
  - intros Hmax. rewrite (getCircleOffsets_exact width Hpos Hmax).
    unfold circleLayout. cbn [map fst snd nth].
    repeat (split; [first [reflexivity | lia]|]).
    intros k Hk.
    do 15 (destruct k as [|k]; [cbn [nth In]; lia|]).
    lia.
Qed.

Lemma getCircleOffsets_layout_witness :
  0 < 10 /\ 3 * 10 + 3 <= max_int /\
  getCircleOffsets 10 = map (fun cr => snd cr * 10 + fst cr) circleLayout /\
  nth 0 (getCircleOffsets 10) 0 = -3 * 10 /\ nth 8 (getCircleOffsets 10) 0 = 3 * 10.
Proof.
  assert (P : 0 < 10) by lia.
  assert (M : 3 * 10 + 3 <= max_int) by (unfold max_int; lia).
  split; [exact P|]. split; [exact M|].
  destruct (proj2 (proj2 (getCircleOffsets_layout 10 P)) M) as [L [H0 [_ [H8 _]]]].
  split; [exact L|]. split; [exact H0 | exact H8].
Defined.

(* ================================================================== *)
(** ** Claims on the comparator and the segment test *)

(** C8. [isBrighter a b threshold] holds exactly when [a - b > threshold]
    and [isDarker a b threshold] exactly when [b - a > threshold], the
    difference being Go's [int] difference, which is the exact one whenever
    that fits in an [int]; the comparisons are strict, so a difference equal
    to the threshold makes the predicate false. *)
Theorem comparator_strict (a b threshold : Z) :
  (isBrighter a b threshold = true <-> Int64.sub a b > threshold) /\
  (isDarker a b threshold = true <-> Int64.sub b a > threshold) /\
  (Int64.sub a b = threshold -> isBrighter a b threshold = false) /\
  (Int64.sub b a = threshold -> isDarker a b threshold = false) /\
  (in_range (a - b) ->
     (isBrighter a b threshold = true <-> a - b > threshold) /\
     (a - b = threshold -> isBrighter a b threshold = false)) /\
  (in_range (b - a) ->
     (isDarker a b threshold = true <-> b - a > threshold) /\
     (b - a = threshold -> isDarker a b threshold = false)).
Proof.
  assert (Hb : forall u v t, Int64.sub u v = t -> (Int64.sub u v >? t) = false).
  { intros u v t E. rewrite Z.gtb_ltb. apply Z.ltb_ge. lia. }
  split; [apply isBrighter_gt|]. split; [apply isDarker_gt|].
  split; [apply Hb|]. split; [apply Hb|].
  split; intros Hr.
  - split.
    + rewrite isBrighter_gt. unfold Int64.sub. now rewrite wrap_small.
    + intros E. apply Hb. unfold Int64.sub. now rewrite wrap_small.
  - split.
    + rewrite isDarker_gt. unfold Int64.sub. now rewrite wrap_small.
    + intros E. apply Hb. unfold Int64.sub. now rewrite wrap_small.
Qed.

(** What [isCorner] accepts, its main loop accepts. *)
Lemma isCorner_segmentTest p cp t :
  isCorner p cp t = true -> segmentTest p cp t = true.
Proof. unfold isCorner. destruct (isTriviallyExcluded cp p t); [discriminate|auto]. Qed.

(** An arc of nine that starts at a compass index holds three compass
    samples, and is kept by the rejection step. *)
Lemma isCorner_top_arc :
  segmentTest 0 topArcSample 5 = true /\ isCorner 0 topArcSample 5 = true.
Proof. vm_compute. split; reflexivity. Qed.

(** C1. The rejection step changes the verdict: on the candidate 0 with
    samples 1 to 9 at 10 and the others at 0, threshold 5, the main loop of
    [isCorner] finds the arc of nine that starts at index 1, while
    [isCorner] rejects, only two of the compass samples (4 and 8) lying on
    the arc. *)
Theorem isCorner_loses_arc :
  segmentTest 0 arcSample 5 = true /\
  isTriviallyExcluded arcSample 0 5 = true /\
  isCorner 0 arcSample 5 = false.
Proof. vm_compute. repeat split. Qed.

(** C2. [isCorner p cp t] holds exactly when three of the four compass
    samples (indices 0, 4, 8, 12) exceed [p] by more than [t] or three of
    them are exceeded by [p] by more than [t], and some start [x] below 16
    has all nine samples [(x + y) mod 16], [y] from 0 to 8, exceeding [p] by
    more than [t], or all nine exceeded by [p] by more than [t].  The
    differences are Go's [int] differences; where no difference between [p]
    and a sample overflows, they are the exact ones. *)
Theorem isCorner_iff (p : Z) (cp : list Z) (t : Z) :
  length cp = 16%nat ->
  (isCorner p cp t = true <-> cornerCriterion Int64.sub p cp t) /\
  ((forall k, 0 <= k < 16 ->
      in_range (get16 cp k - p) /\ in_range (p - get16 cp k)) ->
   (isCorner p cp t = true <-> cornerCriterion Z.sub p cp t)).
Proof.
  intros _. split; [apply isCorner_criterion|].
  intros Hr. rewrite isCorner_criterion.
  split; apply cornerCriterion_ext; intros k Hk; destruct (Hr k Hk) as [H1 H2];
    unfold Int64.sub; rewrite !wrap_small by assumption; auto.
Qed.

Lemma isCorner_iff_witness :
  length topArcSample = 16%nat /\
  isCorner 0 topArcSample 5 = true /\
  cornerCriterion Int64.sub 0 topArcSample 5.
Proof.
  split; [reflexivity|]. split; [vm_compute; reflexivity|].
  apply (proj1 (proj1 (isCorner_iff 0 topArcSample 5 eq_refl))).
  vm_compute. reflexivity.
Defined.

(* ================================================================== *)
(** ** Slice reads *)

Lemma index_Returns s w v :
  index s w = Returns v ->
  0 <= w < Z.of_nat (length s) /\ nth_error s (Z.to_nat w) = Some v.
Proof.
  unfold index. destruct (Z.ltb_spec w 0); [discriminate|].
  destruct (nth_error s (Z.to_nat w)) eqn:E; [|discriminate].
  intros [= ->]. split; [|reflexivity].
  assert (Z.to_nat w < length s)%nat by (apply nth_error_Some; congruence). lia.
Qed.

Lemma index_in_bounds s w :
  0 <= w < Z.of_nat (length s) -> exists v, index s w = Returns v.
Proof.
  intros H. unfold index. destruct (Z.ltb_spec w 0); [lia|].
  destruct (nth_error s (Z.to_nat w)) eqn:E; [eauto|].
  apply nth_error_None in E. lia.
Qed.

Lemma index_out_of_bounds s w :
  w < 0 \/ Z.of_nat (length s) <= w -> index s w = Panics.
Proof.
  intros H. unfold index. destruct (Z.ltb_spec w 0); [reflexivity|].
  destruct (nth_error s (Z.to_nat w)) eqn:E; [|reflexivity].
  assert (Z.to_nat w < length s)%nat by (apply nth_error_Some; congruence). lia.
Qed.

Lemma index_fuel s w : index s w <> OutOfFuel.
Proof.
  unfold index. destruct (w <? 0); [discriminate|].
  destruct (nth_error s (Z.to_nat w)); discriminate.
Qed.

Lemma readCircle_fuel s w offs : readCircle s w offs <> OutOfFuel.
Proof.
  induction offs as [|o os IH]; cbn; [discriminate|].
  pose proof (index_fuel s (Int64.add w o)).
  destruct (index s (Int64.add w o)); cbn; try congruence.
  destruct (readCircle s w os); cbn; congruence.
Qed.

Lemma readCircle_in_bounds s w offs :
  (forall o, In o offs -> 0 <= Int64.add w o < Z.of_nat (length s)) ->
  exists vs, readCircle s w offs = Returns vs.
Proof.
  induction offs as [|o os IH]; intros H; cbn; [eauto|].
  destruct (index_in_bounds s (Int64.add w o)) as [v ->]; [apply H; now left|].
  destruct IH as [vs ->]; [intros; apply H; now right|].
  cbn. eauto.
Qed.

(** What [readCircle] returns holds the pixels at the given offsets. *)
Lemma readCircle_Returns s w offs vs :
  readCircle s w offs = Returns vs ->
  Forall2 (fun o v => index s (Int64.add w o) = Returns v) offs vs.
Proof.
  revert vs. induction offs as [|o os IH]; intros vs; cbn.
  - intros [= <-]. constructor.
  - destruct (index s (Int64.add w o)) eqn:E; cbn; try discriminate.
    destruct (readCircle s w os); cbn; try discriminate.
    intros [= <-]. constructor; auto.
Qed.

Lemma candidate_fuel pixels width t i j : candidate pixels width t i j <> OutOfFuel.
Proof.
  unfold candidate.
  pose proof (index_fuel pixels (Int64.add (Int64.mul i width) j)).
  destruct (index pixels _); cbn [bind]; try congruence.
  pose proof (readCircle_fuel pixels (Int64.add (Int64.mul i width) j)
                (getCircleOffsets width)).
  destruct (readCircle pixels _ _); cbn [bind]; congruence.
Qed.

(* ================================================================== *)
(** ** The loops of the scan against the scan of the specification *)

Lemma flat_map_nil {A B} (f : A -> list B) l :
  (forall a, In a l -> f a = []) -> flat_map f l = [].
Proof.
  induction l as [|a l IH]; intros H; cbn; [reflexivity|].
  rewrite H by now left. apply IH. intros; apply H; now right.
Qed.

(** Skipping [k] columns of a range is starting [k] columns later. *)
Lemma selectRow_skip accept row k lo hi :
  selectRow accept row k (zrange lo hi) =
  selectRow accept row 0 (zrange (lo + Z.of_nat k) hi).
Proof.
  revert lo. induction k as [|k IH]; intros lo.
  - now replace (lo + Z.of_nat 0) with lo by lia.
  - destruct (Z.lt_ge_cases lo hi) as [H|H].
    + rewrite (zrange_cons lo hi H). cbn [selectRow]. rewrite IH.
      do 2 f_equal. lia.
    + rewrite !zrange_nil by lia. reflexivity.
Qed.

Section RowProofs.

Variables (pixels : list Z) (width threshold : Z).

Let offs := getCircleOffsets width.
Let bw := Int64.sub width 3.
Let cand := candidate pixels width threshold.
Let acc := accepted pixels width threshold.

(** One turn of the column loop, by the outcome of the candidate's test. *)
Lemma rowLoop_step i fuel j corners :
  j < bw ->
  rowLoop pixels width threshold offs i (S fuel) j corners =
  match cand i j with
  | Returns true =>
      rowLoop pixels width threshold offs i fuel
              (Int64.add (Int64.add j 3) 1) (corners ++ [j; i])
  | Returns false =>
      rowLoop pixels width threshold offs i fuel (Int64.add j 1) corners
  | Panics => Panics
  | OutOfFuel => OutOfFuel
  end.
Proof.
  intros Hj. cbn [rowLoop]. fold bw.
  destruct (Z.ltb_spec j bw); [|lia].
  unfold cand, candidate. fold offs.
  destruct (index pixels (Int64.add (Int64.mul i width) j)); cbn [bind]; try reflexivity.
  destruct (readCircle pixels (Int64.add (Int64.mul i width) j) offs);
    cbn [bind]; reflexivity.
Qed.

Lemma rowLoop_exit i fuel j corners :
  bw <= j -> rowLoop pixels width threshold offs i fuel j corners = Returns corners.
Proof.
  intros Hj. destruct fuel; cbn [rowLoop]; fold bw;
    destruct (Z.ltb_spec j bw); (lia || reflexivity).
Qed.


(** The column loop either panics at a candidate of the row, or returns
    the corners it was given followed by the row's selection. *)
Lemma rowLoop_spec i :
  bw <= max_int - 3 ->
  forall fuel j corners,
    min_int <= j ->
    (Z.to_nat (bw - j) <= fuel)%nat ->
    (rowLoop pixels width threshold offs i fuel j corners = Panics /\
     exists j', j <= j' < bw /\ cand i j' = Panics) \/
    rowLoop pixels width threshold offs i fuel j corners =
      Returns (corners ++ flatten (selectRow (acc i) i 0 (zrange j bw))).
Proof.
  intros Hbw. induction fuel as [|fuel IH]; intros j corners Hlo Hfuel.
  - right. rewrite rowLoop_exit by lia. rewrite zrange_nil by lia.
    cbn. now rewrite app_nil_r.
  - destruct (Z.lt_ge_cases j bw) as [Hj|Hj].
    2:{ right. rewrite rowLoop_exit by lia. rewrite zrange_nil by lia.
        cbn. now rewrite app_nil_r. }
    rewrite rowLoop_step by assumption.
    rewrite (zrange_cons j bw Hj). cbn [selectRow].
    unfold acc at 1 3. unfold accepted. fold cand.
    pose proof (candidate_fuel pixels width threshold i j) as Hnf. fold cand in Hnf.
    destruct (cand i j) as [[|]| |] eqn:Ec.
    + assert (Int64.add (Int64.add j 3) 1 = j + 4) as ->.
      { unfold Int64.add. rewrite wrap_plus_l.
        replace (j + 3 + 1) with (j + 4) by lia. apply wrap_small. unfold in_range, min_int, max_int in *. lia. }
      rewrite selectRow_skip.
      replace (j + 1 + Z.of_nat 3) with (j + 4) by lia.
      destruct (IH (j + 4) (corners ++ [j; i])) as [[E [j' [Hj' P]]]|E]; try lia.
      * left. split; [exact E|]. exists j'. split; [lia|exact P].
      * right. rewrite E. cbn [flatten]. now rewrite <- app_assoc.
    + assert (Int64.add j 1 = j + 1) as ->.
      { apply wrap_small. unfold in_range, min_int, max_int in *. lia. }
      destruct (IH (j + 1) corners) as [[E [j' [Hj' P]]]|E]; try lia.
      * left. split; [exact E|]. exists j'. split; [lia|exact P].
      * right. exact E.
    + left. split; [reflexivity|]. exists j. split; [lia|exact Ec].
    + congruence.
Qed.

End RowProofs.

Section ImageProofs.

Variables (pixels : list Z) (width height threshold : Z).

Let offs := getCircleOffsets width.
Let bw := Int64.sub width 3.
Let bh := Int64.sub height 3.
Let cand := candidate pixels width threshold.
Let acc := accepted pixels width threshold.

Lemma imageLoop_exit rowFuel fuel i corners :
  bh <= i ->
  imageLoop pixels width height threshold offs rowFuel fuel i corners = Returns corners.
Proof.
  intros Hi. destruct fuel; cbn [imageLoop]; fold bh;
    destruct (Z.ltb_spec i bh); (lia || reflexivity).
Qed.

(** The row loop either panics at a candidate, or returns the corners it
    was given followed by the selections of its rows, top to bottom. *)
Lemma imageLoop_spec :
  bw <= max_int - 3 ->
  forall fuel i corners,
    min_int <= i ->
    (Z.to_nat (bh - i) <= fuel)%nat ->
    (imageLoop pixels width height threshold offs (Z.to_nat (bw - 3)) fuel i corners
       = Panics /\
     exists i' j', i <= i' < bh /\ 3 <= j' < bw /\ cand i' j' = Panics) \/
    imageLoop pixels width height threshold offs (Z.to_nat (bw - 3)) fuel i corners =
      Returns (corners ++
               flatten (flat_map (fun row => selectRow (acc row) row 0 (zrange 3 bw))
                                 (zrange i bh))).
Proof.
  intros Hbw. pose proof (wrap_in_range (height - 3)) as Hbh.
  fold (Int64.sub height 3) in Hbh. fold bh in Hbh. unfold in_range in Hbh.
  induction fuel as [|fuel IH]; intros i corners Hlo Hfuel.
  - right. rewrite imageLoop_exit by lia. rewrite (zrange_nil i bh) by lia.
    cbn. now rewrite app_nil_r.
  - destruct (Z.lt_ge_cases i bh) as [Hi|Hi].
    2:{ right. rewrite imageLoop_exit by lia. rewrite (zrange_nil i bh) by lia.
        cbn. now rewrite app_nil_r. }
    cbn [imageLoop]. fold bh bw. destruct (Z.ltb_spec i bh); [|lia].
    destruct (rowLoop_spec pixels width threshold i Hbw (Z.to_nat (bw - 3)) 3 corners)
      as [[E [j' [Hj' P]]]|E]; [unfold min_int; lia | lia | |]; fold offs bw acc in E.
    + left. rewrite E. cbn [bind]. split; [reflexivity|].
      exists i, j'. repeat split; try lia. exact P.
    + rewrite E. cbn [bind].
      assert (Int64.add i 1 = i + 1) as ->.
      { apply wrap_small. unfold in_range, min_int, max_int in *. lia. }
      rewrite (zrange_cons i bh Hi). cbn [flat_map].
      destruct (IH (i + 1)
                   (corners ++ flatten (selectRow (acc i) i 0 (zrange 3 bw))))
        as [[E' [i' [j' [Hi' [Hj' P]]]]]|E']; try lia.
      * left. split; [exact E'|]. exists i', j'. repeat split; try lia. exact P.
      * right. rewrite E'. now rewrite flatten_app, app_assoc.
Qed.

End ImageProofs.

(* ================================================================== *)
(** ** Dimensions at the edge of the [int] range

    [width - 3] and [height - 3] wrap around for the three smallest values
    of [int]; the loops then have a huge bound, and the scan panics on a
    read before it can report anything. *)

Lemma candidate_first_read pixels width threshold i j :
  index pixels (Int64.add (Int64.mul i width) j) = Panics ->
  candidate pixels width threshold i j = Panics.
Proof. intros E. unfold candidate. now rewrite E. Qed.

Lemma sub3_regular z : min_int + 3 <= z -> in_range z -> Int64.sub z 3 = z - 3.
Proof.
  intros H R. apply wrap_small. unfold in_range, min_int, max_int in *. lia.
Qed.

Lemma sub3_wrapped z :
  in_range z -> z < min_int + 3 -> max_int - 2 <= Int64.sub z 3.
Proof.
  unfold in_range, min_int, max_int. intros R H.
  assert (z = - 2 ^ 63 \/ z = - 2 ^ 63 + 1 \/ z = - 2 ^ 63 + 2) as [->|[->| ->]]
    by lia; vm_compute; discriminate.
Qed.

Section Zones.

Variables (pixels : list Z) (width height threshold : Z).

Let bw := Int64.sub width 3.
Let bh := Int64.sub height 3.
Let cand := candidate pixels width threshold.
Let acc := accepted pixels width threshold.

(** With [width] among the three smallest values the very first candidate
    has a negative index. *)
Lemma narrow_first_read :
  in_range width -> width < min_int + 3 ->
  Int64.add (Int64.mul 3 width) 3 < 0.
Proof.
  unfold in_range, min_int, max_int. intros R H.
  assert (width = - 2 ^ 63 \/ width = - 2 ^ 63 + 1 \/ width = - 2 ^ 63 + 2)
    as [->|[->| ->]] by lia; vm_compute; reflexivity.
Qed.

Lemma findCorners_narrow :
  in_range width -> width < min_int + 3 ->
  (bh <= 3 /\ findCorners pixels width height threshold = Returns []) \/
  (3 < bh /\ findCorners pixels width height threshold = Panics).
Proof.
  intros R H. unfold findCorners. fold bw bh.
  destruct (Z.lt_ge_cases 3 bh) as [Hb|Hb].
  - right. split; [exact Hb|].
    pose proof (sub3_wrapped width R H) as Hw. fold bw in Hw.
    assert (3 < bw) as H3 by (unfold max_int in Hw; lia).
    destruct (Z.to_nat (bh - 3)) as [|fuel] eqn:Ef; [lia|].
    destruct (Z.to_nat (bw - 3)) as [|rf] eqn:Er; [lia|].
    cbn [imageLoop]. fold bh. destruct (Z.ltb_spec 3 bh); [|lia].
    rewrite (rowLoop_step pixels width threshold 3 rf 3 [] H3).
    rewrite candidate_first_read; [reflexivity|].
    apply index_out_of_bounds. left. now apply narrow_first_read.
  - left. split; [exact Hb|]. now apply imageLoop_exit.
Qed.

(** With [height - 3] wrapped and at least one candidate per row, the
    index of the first candidate of the rows grows by [width] from row to
    row until it leaves the slice. *)
Lemma imageLoop_overrun :
  in_range width -> 7 <= width -> max_int - 2 <= bh ->
  Z.of_nat (length pixels) <= max_int ->
  forall fuel i corners,
    3 <= i < bh ->
    (Z.to_nat (bh - i) <= fuel)%nat ->
    7 * (i - 3) <= wrap (i * width + 3) \/ wrap (i * width + 3) < 0 ->
    imageLoop pixels width height threshold (getCircleOffsets width)
              (Z.to_nat (bw - 3)) fuel i corners
    = Panics.
Proof.
  intros R H7 Hbh Hlen.
  assert (bw = width - 3) as Ebw
      by (apply sub3_regular; [unfold min_int; lia | exact R]).
  assert (bw <= max_int - 3) as Hbw
      by (unfold in_range, max_int, min_int in *; lia).
  pose proof (wrap_in_range (height - 3)) as Rbh.
  fold (Int64.sub height 3) in Rbh. fold bh in Rbh.
  unfold in_range, min_int, max_int in *.
  induction fuel as [|fuel IH]; intros i corners Hi Hfuel Hinv; [lia|].
  cbn [imageLoop]. fold bh bw. destruct (Z.ltb_spec i bh); [|lia].
  assert (Int64.add (Int64.mul i width) 3 = wrap (i * width + 3)) as Ew
      by (unfold Int64.add, Int64.mul; apply wrap_plus_l).
  assert (exists rf, Z.to_nat (bw - 3) = S rf) as [rf Er]
      by (exists (Z.to_nat (bw - 3) - 1)%nat; lia).
  assert (wrap (i * width + 3) < 0 \/ Z.of_nat (length pixels) <= wrap (i * width + 3)
          \/ 0 <= wrap (i * width + 3) < Z.of_nat (length pixels)) as [C|[C|C]] by lia.
  1,2: rewrite Er, (rowLoop_step pixels width threshold i rf 3 corners) by lia;
       rewrite candidate_first_read; [reflexivity|];
       apply index_out_of_bounds; rewrite Ew; lia.
  destruct (rowLoop_spec pixels width threshold i Hbw (Z.to_nat (bw - 3)) 3 corners)
    as [[E _]|E]; [unfold min_int; lia | lia | |]; rewrite E; cbn [bind].
  - reflexivity.
  - assert (Int64.add i 1 = i + 1) as ->
        by (apply wrap_small; unfold in_range, min_int, max_int; lia).
    destruct Hinv as [Hinv|Hinv]; [|lia].
    assert (i + 1 < bh) as Hnext by lia.
    apply IH; [lia | lia |].
    assert (wrap ((i + 1) * width + 3) = wrap (wrap (i * width + 3) + width)) as ->
        by (rewrite wrap_plus_l; f_equal; lia).
    destruct (Z.le_gt_cases (wrap (i * width + 3) + width) (2 ^ 63 - 1)) as [S|S].
    + left. rewrite wrap_small by (unfold in_range, min_int, max_int; lia). lia.
    + right. rewrite wrap_neg_half by lia. lia.
Qed.

Lemma findCorners_overrun :
  in_range width -> 7 <= width -> in_range height -> height < min_int + 3 ->
  Z.of_nat (length pixels) <= max_int ->
  findCorners pixels width height threshold = Panics.
Proof.
  intros R H7 Rh Hh Hlen. unfold findCorners. fold bw bh.
  pose proof (sub3_wrapped height Rh Hh) as Hb. fold bh in Hb.
  apply imageLoop_overrun; try assumption.
  - unfold max_int in Hb. lia.
  - lia.
  - pose proof (wrap_in_range (3 * width + 3)) as W.
    unfold in_range, min_int in W. lia.
Qed.

(** The outcome of the scan for every width and height an [int] can hold:
    the list of the specification, or a panic -- at a candidate, or at a
    dimension whose [- 3] wraps around. *)
Lemma findCorners_cases :
  in_range width -> in_range height ->
  Z.of_nat (length pixels) <= max_int ->
  findCorners pixels width height threshold
    = Returns (flatten (scanSpec pixels width height threshold)) \/
  (findCorners pixels width height threshold = Panics /\
   ((exists i j, 3 <= i < height - 3 /\ 3 <= j < width - 3 /\ cand i j = Panics) \/
    (width < min_int + 3 /\ 3 < bh) \/
    (height < min_int + 3 /\ 7 <= width))).
Proof.
  intros Rw Rh Hlen.
  destruct (Z.lt_ge_cases width (min_int + 3)) as [Zw|Zw].
  { (* width - 3 wraps *)
    assert (scanSpec pixels width height threshold = []) as ->.
    { unfold scanSpec. apply flat_map_nil. intros row _.
      rewrite zrange_nil; [reflexivity|]. unfold min_int in Zw. lia. }
    destruct (findCorners_narrow Rw Zw) as [[_ E]|[Hb E]].
    - left. exact E.
    - right. split; [exact E|]. right. left. split; assumption. }
  assert (bw = width - 3) as Ebw by (now apply sub3_regular).
  assert (bw <= max_int - 3) as Hbw by (unfold in_range in Rw; lia).
  destruct (Z.lt_ge_cases height (min_int + 3)) as [Zh|Zh].
  { (* height - 3 wraps *)
    assert (scanSpec pixels width height threshold = []) as ->.
    { unfold scanSpec. rewrite (zrange_nil 3 (height - 3)); [reflexivity|].
      unfold min_int in Zh. lia. }
    destruct (Z.lt_ge_cases width 7) as [W7|W7].
    - left. unfold findCorners. fold bw bh.
      destruct (imageLoop_spec pixels width height threshold Hbw
                  (Z.to_nat (bh - 3)) 3 [])
        as [[_ [i' [j' [_ [Hj' _]]]]]|E]; [unfold min_int; lia | lia | | ].
      + fold bw in Hj'. lia.
      + fold bw bh in E. rewrite E. cbn [app]. do 2 f_equal.
        apply flat_map_nil. intros row _. rewrite zrange_nil; [reflexivity|].
        fold bw. lia.
    - right. split; [now apply findCorners_overrun|]. right. right. split; assumption. }
  assert (bh = height - 3) as Ebh by (now apply sub3_regular).
  unfold findCorners. fold bw bh.
  destruct (imageLoop_spec pixels width height threshold Hbw
              (Z.to_nat (bh - 3)) 3 [])
    as [[E [i' [j' [Hi' [Hj' P]]]]]|E]; [unfold min_int; lia | lia | | ].
  - right. fold bw bh in E. split; [exact E|]. left.
    fold bw bh in Hi', Hj'. exists i', j'. repeat split; try lia. exact P.
  - left. fold bw bh in E. rewrite E. cbn [app]. unfold scanSpec.
    fold acc. now rewrite Ebw, Ebh.
Qed.

End Zones.

(* ================================================================== *)
(** ** Properties of the scan of the specification *)

Lemma selectRow_In accept row k cols x y :
  In (x, y) (selectRow accept row k cols) ->
  y = row /\ In x cols /\ accept x = true.
Proof.
  revert k. induction cols as [|c cols IH]; intros k H; [contradiction|].
  cbn [selectRow] in H. destruct k as [|k].
  - destruct (accept c) eqn:Ec.
    + destruct H as [[= <- <-]|H]; [repeat split; auto; now left|].
      destruct (IH _ H) as [? [? ?]]. repeat split; auto. now right.
    + destruct (IH _ H) as [? [? ?]]. repeat split; auto. now right.
  - destruct (IH _ H) as [? [? ?]]. repeat split; auto. now right.
Qed.

Lemma scanSpec_In pixels width height t x y :
  In (x, y) (scanSpec pixels width height t) ->
  3 <= x <= width - 4 /\ 3 <= y <= height - 4 /\ accepted pixels width t y x = true.
Proof.
  unfold scanSpec. rewrite in_flat_map. intros [row [Hrow H]].
  apply selectRow_In in H. destruct H as [-> [Hx Ha]].
  apply In_zrange in Hrow, Hx. repeat split; try lia. exact Ha.
Qed.

Lemma StronglySorted_app {A} (R : A -> A -> Prop) l1 l2 :
  StronglySorted R l1 -> StronglySorted R l2 ->
  (forall a b, In a l1 -> In b l2 -> R a b) ->
  StronglySorted R (l1 ++ l2).
Proof.
  induction 1 as [|a l1 S1 IH F]; intros S2 H; cbn; [exact S2|].
  constructor.
  - apply IH; [exact S2|]. intros; apply H; auto. now right.
  - apply Forall_app. split; [exact F|].
    apply Forall_forall. intros b Hb. apply H; [now left|exact Hb].
Qed.

(** Inside a row the selected columns are at least four apart. *)
Lemma selectRow_sorted accept row hi :
  forall n lo, (Z.to_nat (hi - lo) <= n)%nat ->
    StronglySorted scanOrder (selectRow accept row 0 (zrange lo hi)) /\
    Forall (fun q => lo <= fst q) (selectRow accept row 0 (zrange lo hi)).
Proof.
  induction n as [|n IH]; intros lo Hn.
  - rewrite zrange_nil by lia. cbn. split; constructor.
  - destruct (Z.lt_ge_cases lo hi) as [H|H].
    2:{ rewrite zrange_nil by lia. cbn. split; constructor. }
    rewrite (zrange_cons lo hi H). cbn [selectRow].
    destruct (accept lo).
    + rewrite selectRow_skip. replace (lo + 1 + Z.of_nat 3) with (lo + 4) by lia.
      destruct (IH (lo + 4) ltac:(lia)) as [S F]. split.
      * constructor; [exact S|].
        rewrite Forall_forall in *. intros [x y] Hq.
        specialize (F _ Hq). apply selectRow_In in Hq. destruct Hq as [-> _].
        unfold scanOrder. cbn [fst snd] in *. lia.
      * constructor; [cbn; lia|].
        eapply Forall_impl; [|exact F]. cbn. intros; lia.
    + destruct (IH (lo + 1) ltac:(lia)) as [S F]. split; [exact S|].
      eapply Forall_impl; [|exact F]. cbn. intros; lia.
Qed.

(** The rows follow each other top to bottom. *)
Lemma rows_sorted (f : Z -> list (Z * Z)) hi :
  (forall row, StronglySorted scanOrder (f row)) ->
  (forall row q, In q (f row) -> snd q = row) ->
  forall n lo, (Z.to_nat (hi - lo) <= n)%nat ->
    StronglySorted scanOrder (flat_map f (zrange lo hi)).
Proof.
  intros Hs Hr. induction n as [|n IH]; intros lo Hn.
  - rewrite zrange_nil by lia. constructor.
  - destruct (Z.lt_ge_cases lo hi) as [H|H].
    2:{ rewrite zrange_nil by lia. constructor. }
    rewrite (zrange_cons lo hi H). cbn [flat_map].
    apply StronglySorted_app; [apply Hs | apply IH; lia |].
    intros a b Ha Hb. apply Hr in Ha.
    apply in_flat_map in Hb. destruct Hb as [row [Hrow Hb]].
    apply Hr in Hb. apply In_zrange in Hrow. unfold scanOrder. lia.
Qed.

Lemma scanSpec_sorted pixels width height t :
  StronglySorted scanOrder (scanSpec pixels width height t).
Proof.
  unfold scanSpec. eapply rows_sorted; [| |reflexivity].
  - intros row. eapply selectRow_sorted. reflexivity.
  - intros row [x y] H. apply selectRow_In in H. now destruct H as [-> _].
Qed.

Lemma StronglySorted_nth {A} (R : A -> A -> Prop) l :
  StronglySorted R l ->
  forall a b u v, (a < b)%nat ->
    nth_error l a = Some u -> nth_error l b = Some v -> R u v.
Proof.
  induction 1 as [|h l S IH F]; intros a b u v Hab Ha Hb.
  - destruct a; discriminate.
  - destruct b as [|b]; [lia|]. cbn in Hb. destruct a as [|a].
    + cbn in Ha. injection Ha as <-. rewrite Forall_forall in F.
      apply F. eapply nth_error_In; eauto.
    + cbn in Ha. apply (IH a b u v); [lia | exact Ha | exact Hb].
Qed.

Lemma StronglySorted_NoDup {A} (R : A -> A -> Prop) l :
  (forall a, ~ R a a) -> StronglySorted R l -> NoDup l.
Proof.
  intros Irr. induction 1 as [|h l S IH F]; constructor; auto.
  intros Hin. rewrite Forall_forall in F. exact (Irr h (F h Hin)).
Qed.

(** *** Counting: skipping more never selects more, and a skip of up to
    four columns loses at most one selection *)

Lemma selectRow_length_skip accept row cols :
  (forall s s', (s <= s')%nat ->
     (length (selectRow accept row s' cols) <= length (selectRow accept row s cols))%nat) /\
  (forall s k, (k <= 4)%nat ->
     (length (selectRow accept row s cols)
      <= 1 + length (selectRow accept row (s + k) cols))%nat).
Proof.
  induction cols as [|c cols [IHm IHs]]; [split; intros; cbn; lia|].
  split.
  - intros s s' Hs. destruct s as [|s]; destruct s' as [|s']; cbn [selectRow].
    + lia.
    + destruct (accept c); cbn [length].
      * destruct (Nat.le_gt_cases 3 s') as [H|H].
        -- specialize (IHm 3%nat s' H). lia.
        -- specialize (IHs s' (3 - s')%nat ltac:(lia)).
           replace (s' + (3 - s'))%nat with 3%nat in IHs by lia. lia.
      * apply IHm. lia.
    + lia.
    + apply IHm. lia.
  - intros s k Hk. destruct s as [|s]; cbn [selectRow Nat.add].
    + destruct k as [|k]; cbn [selectRow Nat.add].
      * lia.
      * destruct (accept c); cbn [length].
        -- specialize (IHm k 3%nat ltac:(lia)). lia.
        -- specialize (IHs 0%nat k ltac:(lia)). cbn [Nat.add] in IHs. lia.
    + apply IHs. exact Hk.
Qed.

(** Accepting fewer columns never selects more of them. *)
Lemma selectRow_length_mono accept accept' row cols :
  (forall c, accept' c = true -> accept c = true) ->
  forall s s', (s <= s')%nat ->
    (length (selectRow accept' row s' cols) <= length (selectRow accept row s cols))%nat.
Proof.
  intros Hsub. induction cols as [|c cols IH]; intros s s' Hs; [cbn; lia|].
  destruct (selectRow_length_skip accept row cols) as [Hm Hk].
  destruct s as [|s]; destruct s' as [|s']; cbn [selectRow]; try lia.
  - specialize (Hsub c).
    destruct (accept' c); destruct (accept c); cbn [length].
    + specialize (IH 3%nat 3%nat ltac:(lia)). lia.
    + discriminate Hsub. reflexivity.
    + specialize (IH 0%nat 0%nat ltac:(lia)).
      specialize (Hk 0%nat 3%nat ltac:(lia)). cbn [Nat.add] in Hk. lia.
    + apply IH. lia.
  - destruct (accept c); cbn [length].
    + specialize (IH 0%nat s' ltac:(lia)).
      specialize (Hk 0%nat 3%nat ltac:(lia)). cbn [Nat.add] in Hk. lia.
    + apply IH. lia.
  - apply IH. lia.
Qed.

Lemma flat_map_length_le {A B} (f g : A -> list B) l :
  (forall a, (length (f a) <= length (g a))%nat) ->
  (length (flat_map f l) <= length (flat_map g l))%nat.
Proof.
  intros H. induction l as [|a l IH]; cbn; [lia|].
  rewrite !length_app. specialize (H a). lia.
Qed.

(* ================================================================== *)
(** ** The threshold *)

Lemma countIf_mono f g l :
  (forall k, f k = true -> g k = true) -> (countIf f l <= countIf g l)%nat.
Proof.
  intros H. unfold countIf. induction l as [|a l IH]; cbn; [lia|].
  specialize (H a). destruct (f a); destruct (g a); cbn; lia.
Qed.

Lemma gtb_mono d t t' : t <= t' -> (d >? t') = true -> (d >? t) = true.
Proof. rewrite !Z.gtb_ltb, !Z.ltb_lt. lia. Qed.

(** A candidate accepted at a threshold is accepted at every lower one. *)
Lemma isCorner_mono p cp t t' :
  t <= t' -> isCorner p cp t' = true -> isCorner p cp t = true.
Proof.
  intros Ht. rewrite !isCorner_criterion.
  intros [Hc [x [Hx Ha]]]. split.
  - destruct Hc as [Hc|Hc]; [left|right];
      (eapply Nat.le_trans; [exact Hc|]); apply countIf_mono;
      intros k; apply gtb_mono; exact Ht.
  - exists x. split; [exact Hx|].
    destruct Ha as [Ha|Ha]; [left|right]; intros y Hy; specialize (Ha y Hy); lia.
Qed.

Lemma accepted_mono pixels width t t' i j :
  t <= t' ->
  accepted pixels width t' i j = true -> accepted pixels width t i j = true.
Proof.
  intros Ht. unfold accepted, candidate.
  destruct (index pixels (Int64.add (Int64.mul i width) j)) as [p| |];
    cbn [bind]; try discriminate.
  destruct (readCircle pixels (Int64.add (Int64.mul i width) j)
              (getCircleOffsets width)) as [cp| |]; cbn [bind]; try discriminate.
  destruct (isCorner p cp t') eqn:E; [|discriminate].
  intros _. now rewrite (isCorner_mono p cp t t' Ht E).
Qed.

Lemma scanSpec_length_mono pixels width height t t' :
  t <= t' ->
  (length (scanSpec pixels width height t') <= length (scanSpec pixels width height t))%nat.
Proof.
  intros Ht. unfold scanSpec. apply flat_map_length_le. intros row.
  apply selectRow_length_mono; [|lia].
  intros c. apply accepted_mono. exact Ht.
Qed.

(* ================================================================== *)
(** ** Images of one intensity *)

Lemma index_In s w v : index s w = Returns v -> In v s.
Proof.
  intros H. apply index_Returns in H. destruct H as [_ H].
  eapply nth_error_In. exact H.
Qed.

Lemma readCircle_all s w offs vs :
  readCircle s w offs = Returns vs ->
  length vs = length offs /\ forall v, In v vs -> In v s.
Proof.
  intros H. apply readCircle_Returns in H.
  induction H as [|o v offs vs E F [IHl IHi]]; [split; [reflexivity|contradiction]|].
  split; [cbn; now rewrite IHl|].
  intros u [<-|Hu]; [eapply index_In; exact E | now apply IHi].
Qed.

Lemma get16_In cp k :
  length cp = 16%nat -> 0 <= k < 16 -> In (get16 cp k) cp.
Proof. intros L Hk. unfold get16. apply nth_In. lia. Qed.

Lemma isCorner_uniform p cp t :
  0 < t -> length cp = 16%nat -> (forall v, In v cp -> v = p) ->
  isCorner p cp t = false.
Proof.
  intros Ht L U. destruct (isCorner p cp t) eqn:E; [|reflexivity].
  apply isCorner_criterion in E. destruct E as [_ [x [Hx Ha]]].
  assert (0 <= (x + 0) mod 16 < 16) as Hk by (apply Z.mod_pos_bound; lia).
  pose proof (U _ (get16_In cp _ L Hk)) as Eq.
  assert (Int64.sub p p = 0) as Z0
      by (unfold Int64.sub; rewrite Z.sub_diag; reflexivity).
  destruct Ha as [Ha|Ha]; specialize (Ha 0 ltac:(lia));
    rewrite Eq, Z0 in Ha; lia.
Qed.

Lemma accepted_uniform pixels width t c i j :
  0 < t -> (forall v, In v pixels -> v = c) ->
  accepted pixels width t i j = false.
Proof.
  intros Ht U. unfold accepted, candidate.
  destruct (index pixels (Int64.add (Int64.mul i width) j)) as [p| |] eqn:Ep;
    cbn [bind]; try reflexivity.
  destruct (readCircle pixels (Int64.add (Int64.mul i width) j)
              (getCircleOffsets width)) as [cp| |] eqn:Ec; cbn [bind]; try reflexivity.
  apply readCircle_all in Ec. destruct Ec as [L Hin].
  rewrite isCorner_uniform; [reflexivity | exact Ht | exact L |].
  intros v Hv. rewrite (U v (Hin v Hv)). symmetry. apply U.
  eapply index_In. exact Ep.
Qed.

Lemma scanSpec_uniform pixels width height t c :
  0 < t -> (forall v, In v pixels -> v = c) ->
  scanSpec pixels width height t = [].
Proof.
  intros Ht U. destruct (scanSpec pixels width height t) as [|[x y] l] eqn:E;
    [reflexivity|].
  assert (In (x, y) (scanSpec pixels width height t)) as H by (rewrite E; now left).
  apply scanSpec_In in H. destruct H as [_ [_ H]].
  now rewrite (accepted_uniform pixels width t c y x Ht U) in H.
Qed.

(* ================================================================== *)
(** ** Reads stay inside a buffer of [width * height] pixels *)

Section Bounds.

Variables (pixels : list Z) (width height : Z).

Hypothesis Hlen : Z.of_nat (length pixels) = width * height.
Hypothesis Hmax : Z.of_nat (length pixels) <= max_int.

Lemma interior_reads i j :
  3 <= i < height - 3 -> 3 <= j < width - 3 ->
  Int64.add (Int64.mul i width) j = i * width + j /\
  0 <= Int64.add (Int64.mul i width) j < width * height /\
  forall o, In o (getCircleOffsets width) ->
    0 <= Int64.add (Int64.add (Int64.mul i width) j) o < width * height.
Proof.
  intros Hi Hj.
  assert (3 * width <= i * width) as A by nia.
  assert ((i + 4) * width <= width * height) as B by nia.
  assert (width * height <= max_int) as M by lia.
  unfold max_int in *.
  assert (Int64.add (Int64.mul i width) j = i * width + j) as Ew.
  { unfold Int64.add, Int64.mul. rewrite wrap_plus_l.
    apply wrap_small. unfold in_range, min_int, max_int. lia. }
  rewrite Ew. split; [reflexivity|]. split; [lia|].
  intros o Ho.
  rewrite getCircleOffsets_exact in Ho by (unfold max_int; lia).
  assert (0 <= i * width + j + o < width * height) as R.
  { unfold circleLayout in Ho. cbn [map fst snd In] in Ho.
    repeat (destruct Ho as [Ho|Ho]; [subst o; lia|]). contradiction. }
  unfold Int64.add. rewrite wrap_small; [exact R|].
  unfold in_range, min_int, max_int. lia.
Qed.

Lemma interior_candidate threshold i j :
  3 <= i < height - 3 -> 3 <= j < width - 3 ->
  exists b, candidate pixels width threshold i j = Returns b.
Proof.
  intros Hi Hj. destruct (interior_reads i j Hi Hj) as [_ [Hw Ho]].
  unfold candidate. rewrite <- Hlen in Hw, Ho.
  destruct (index_in_bounds pixels _ Hw) as [p ->]. cbn [bind].
  destruct (readCircle_in_bounds pixels _ _ Ho) as [cp ->]. cbn [bind].
  eauto.
Qed.

(** On a buffer of [width * height] pixels the scan returns the list of
    the specification. *)
Lemma findCorners_returns threshold :
  in_range width -> in_range height ->
  findCorners pixels width height threshold
  = Returns (flatten (scanSpec pixels width height threshold)).
Proof.
  intros Rw Rh.
  destruct (findCorners_cases pixels width height threshold Rw Rh Hmax)
    as [E|[_ [[i [j [Hi [Hj P]]]]|[[Zw Hb]|[Zh W7]]]]]; [exact E| | |].
  - destruct (interior_candidate threshold i j Hi Hj) as [b E]. congruence.
  - exfalso. unfold in_range, min_int, max_int in *.
    destruct (Z.lt_ge_cases height (- 2 ^ 63 + 3)) as [Zh|Zh]; [nia|].
    rewrite sub3_regular in Hb; unfold in_range, min_int, max_int; nia.
  - exfalso. unfold in_range, min_int, max_int in *. nia.
Qed.

End Bounds.

(* ================================================================== *)
(** ** The loop budget and the step of the selection *)

(** The budget handed to the loops is never used up. *)
Lemma findCorners_fuel pixels width height threshold :
  in_range width -> in_range height ->
  Z.of_nat (length pixels) <= max_int ->
  findCorners pixels width height threshold <> OutOfFuel.
Proof.
  intros Rw Rh Hmax.
  destruct (findCorners_cases pixels width height threshold Rw Rh Hmax)
    as [E|[E _]]; rewrite E; discriminate.
Qed.

(** One step of the selection on a row: an accepted column is reported and
    the selection goes on four columns further, a rejected one is left for
    the next column. *)
Lemma selectRow_step accept row col hi :
  col < hi ->
  selectRow accept row 0 (zrange col hi) =
  if accept col then (col, row) :: selectRow accept row 0 (zrange (col + 4) hi)
  else selectRow accept row 0 (zrange (col + 1) hi).
Proof.
  intros H. rewrite (zrange_cons col hi H). cbn [selectRow].
  destruct (accept col); [|reflexivity].
  rewrite selectRow_skip.
  now replace (col + 1 + Z.of_nat 3) with (col + 4) by lia.
Qed.

(* ================================================================== *)
(** ** Claims on the scan

    [width] and [height] range over the values of an [int], and the pixel
    buffer is a Go slice, whose length is at most [max_int]. *)

(** C3. Every coordinate pair in the list [findCorners] returns satisfies
    [3 <= x <= width - 4] and [3 <= y <= height - 4]; the returned list is
    made of such pairs and nothing else. *)
Theorem findCorners_interior (pixels : list Z) (width height threshold : Z)
        (corners : list Z) :
  in_range width -> in_range height ->
  Z.of_nat (length pixels) <= max_int ->
  findCorners pixels width height threshold = Returns corners ->
  corners = flatten (pairs corners) /\
  forall x y, In (x, y) (pairs corners) ->
    3 <= x <= width - 4 /\ 3 <= y <= height - 4.
Proof.
  intros Rw Rh Hmax E.
  destruct (findCorners_cases pixels width height threshold Rw Rh Hmax)
    as [E'|[E' _]]; [|congruence].
  rewrite E in E'. injection E' as ->. rewrite pairs_flatten.
  split; [reflexivity|].
  intros x y H. apply scanSpec_In in H. lia.
Qed.

Lemma findCorners_interior_witness :
  findCorners dots 14 9 20 = Returns [3; 4; 8; 4] /\
  forall x y, In (x, y) (pairs [3; 4; 8; 4]) ->
    3 <= x <= 14 - 4 /\ 3 <= y <= 9 - 4.
Proof.
  assert (E : findCorners dots 14 9 20 = Returns [3; 4; 8; 4])
    by (vm_compute; reflexivity).
  split; [exact E|].
  apply (findCorners_interior dots 14 9 20 [3; 4; 8; 4]).
  - unfold in_range, min_int, max_int. lia.
  - unfold in_range, min_int, max_int. lia.
  - vm_compute. discriminate.
  - exact E.
Defined.

(** C5. [findCorners] takes rows 3 to [height - 4] top to bottom and, in
    each row, columns 3 to [width - 4] left to right, reporting [(col, row)]
    for each accepted candidate in the order met and passing over the three
    columns after an accepted one, every row starting afresh: the scan
    returns exactly that list or panics on a read outside the buffer (its
    loops never run out of budget), and on a buffer of [width * height]
    pixels it returns it. *)
Theorem findCorners_row_major (pixels : list Z) (width height threshold : Z) :
  in_range width -> in_range height ->
  Z.of_nat (length pixels) <= max_int ->
  (findCorners pixels width height threshold
     = Returns (flatten (scanSpec pixels width height threshold)) \/
   findCorners pixels width height threshold = Panics) /\
  (Z.of_nat (length pixels) = width * height ->
   findCorners pixels width height threshold
     = Returns (flatten (scanSpec pixels width height threshold))) /\
  (forall corners,
     findCorners pixels width height threshold = Returns corners ->
     corners = flatten (scanSpec pixels width height threshold) /\
     pairs corners = scanSpec pixels width height threshold) /\
  (forall row col, col < width - 3 ->
     selectRow (accepted pixels width threshold row) row 0 (zrange col (width - 3)) =
     if accepted pixels width threshold row col
     then (col, row) :: selectRow (accepted pixels width threshold row) row 0
                                  (zrange (col + 4) (width - 3))
     else selectRow (accepted pixels width threshold row) row 0
                    (zrange (col + 1) (width - 3))).
Proof.
  intros Rw Rh Hmax.
  pose proof (findCorners_cases pixels width height threshold Rw Rh Hmax) as C.
  split; [|split; [|split]].
  - destruct C as [E|[E _]]; [left|right]; exact E.
  - intros Hlen. now apply findCorners_returns.
  - intros corners E. destruct C as [E'|[E' _]]; [|congruence].
    rewrite E in E'. injection E' as ->. now rewrite pairs_flatten.
  - intros row col H. now apply selectRow_step.
Qed.

Lemma findCorners_row_major_witness :
  Z.of_nat (length dots) = 14 * 9 /\
  findCorners dots 14 9 20 = Returns (flatten (scanSpec dots 14 9 20)) /\
  scanSpec dots 14 9 20 = [(3, 4); (8, 4)] /\
  accepted dots 14 20 4 4 = true.
Proof.
  assert (L : Z.of_nat (length dots) = 14 * 9) by (vm_compute; reflexivity).
  split; [exact L|]. split; [|split; vm_compute; reflexivity].
  refine (proj1 (proj2 (findCorners_row_major dots 14 9 20 _ _ _)) L).
  - unfold in_range, min_int, max_int. lia.
  - unfold in_range, min_int, max_int. lia.
  - vm_compute. discriminate.
Defined.

(** C6. On a pixel buffer of length [width * height] the scan never reads
    outside the buffer and returns: for every candidate of the interior the
    index [i * width + j] and the sixteen circle indices lie in
    [0, width * height), no sum wrapping around; and with [width < 7] or
    [height < 7] the result is the empty list. *)
Theorem findCorners_total (pixels : list Z) (width height threshold : Z) :
  in_range width -> in_range height ->
  Z.of_nat (length pixels) = width * height ->
  Z.of_nat (length pixels) <= max_int ->
  (exists corners, findCorners pixels width height threshold = Returns corners) /\
  (forall i j, 3 <= i < height - 3 -> 3 <= j < width - 3 ->
     Int64.add (Int64.mul i width) j = i * width + j /\
     0 <= Int64.add (Int64.mul i width) j < width * height /\
     (forall o, In o (getCircleOffsets width) ->
        0 <= Int64.add (Int64.add (Int64.mul i width) j) o < width * height) /\
     exists b, candidate pixels width threshold i j = Returns b) /\
  (width < 7 \/ height < 7 ->
     findCorners pixels width height threshold = Returns []).
Proof.
  intros Rw Rh Hlen Hmax.
  pose proof (findCorners_returns pixels width height Hlen Hmax threshold Rw Rh) as E.
  split; [eauto|]. split.
  - intros i j Hi Hj.
    destruct (interior_reads pixels width height Hlen Hmax i j Hi Hj) as [A [B C]].
    split; [exact A|]. split; [exact B|]. split; [exact C|].
    now apply (interior_candidate pixels width height Hlen Hmax).
  - intros Hsmall. rewrite E.
    assert (scanSpec pixels width height threshold = []) as ->; [|reflexivity].
    unfold scanSpec. destruct (Z.lt_ge_cases height 7) as [H|H].
    + now rewrite (zrange_nil 3 (height - 3)) by lia.
    + apply flat_map_nil. intros row _. now rewrite zrange_nil by lia.
Qed.

Lemma findCorners_total_witness :
  Z.of_nat (length dots) = 14 * 9 /\
  exists corners, findCorners dots 14 9 20 = Returns corners.
Proof.
  split; [vm_compute; reflexivity|].
  apply (findCorners_total dots 14 9 20).
  - unfold in_range, min_int, max_int. lia.
  - unfold in_range, min_int, max_int. lia.
  - vm_compute. reflexivity.
  - vm_compute. discriminate.
Defined.

(** C7. For thresholds [t <= t'] the scan at [t'] returns no more corners
    than the scan at [t], the passing over of columns notwithstanding; on a
    buffer of length [width * height] both scans return. *)
Theorem findCorners_threshold_mono (pixels : list Z) (width height t t' : Z) :
  in_range width -> in_range height ->
  Z.of_nat (length pixels) <= max_int ->
  t <= t' ->
  (forall c c',
     findCorners pixels width height t = Returns c ->
     findCorners pixels width height t' = Returns c' ->
     (length (pairs c') <= length (pairs c))%nat /\ (length c' <= length c)%nat) /\
  (Z.of_nat (length pixels) = width * height ->
   exists c c',
     findCorners pixels width height t = Returns c /\
     findCorners pixels width height t' = Returns c' /\
     (length (pairs c') <= length (pairs c))%nat).
Proof.
  intros Rw Rh Hmax Ht.
  assert (L : forall ps, length (flatten ps) = (2 * length ps)%nat).
  { induction ps as [|[x y] ps IH]; cbn [flatten length]; lia. }
  pose proof (scanSpec_length_mono pixels width height t t' Ht) as M.
  split.
  - intros c c' E E'.
    destruct (findCorners_cases pixels width height t Rw Rh Hmax)
      as [F|[F _]]; [|congruence].
    destruct (findCorners_cases pixels width height t' Rw Rh Hmax)
      as [F'|[F' _]]; [|congruence].
    rewrite E in F. rewrite E' in F'. injection F as ->. injection F' as ->.
    rewrite !pairs_flatten, !L. lia.
  - intros Hlen.
    exists (flatten (scanSpec pixels width height t)),
           (flatten (scanSpec pixels width height t')).
    rewrite !(findCorners_returns pixels width height Hlen Hmax) by assumption.
    rewrite !pairs_flatten. auto.
Qed.

Lemma findCorners_threshold_mono_witness :
  findCorners dots 14 9 20 = Returns [3; 4; 8; 4] /\
  findCorners dots 14 9 150 = Returns [] /\
  (length (pairs (@nil Z)) <= length (pairs [3; 4; 8; 4]%Z))%nat.
Proof.
  assert (E : findCorners dots 14 9 20 = Returns [3; 4; 8; 4])
    by (vm_compute; reflexivity).
  assert (E' : findCorners dots 14 9 150 = Returns [])
    by (vm_compute; reflexivity).
  split; [exact E|]. split; [exact E'|].
  assert (Rw : in_range 14) by (unfold in_range, min_int, max_int; lia).
  assert (Rh : in_range 9) by (unfold in_range, min_int, max_int; lia).
  assert (Hm : Z.of_nat (length dots) <= max_int) by (vm_compute; discriminate).
  exact (proj1 (proj1 (findCorners_threshold_mono dots 14 9 20 150 Rw Rh Hm
                         ltac:(lia)) _ _ E E')).
Defined.

(** C9. With a positive threshold an image of one intensity has no corner:
    the scan returns nothing but the empty list, and on a buffer of length
    [width * height] it returns it. *)
Theorem findCorners_uniform (pixels : list Z) (width height threshold c : Z) :
  in_range width -> in_range height ->
  Z.of_nat (length pixels) <= max_int ->
  0 < threshold ->
  (forall v, In v pixels -> v = c) ->
  (forall corners,
     findCorners pixels width height threshold = Returns corners -> corners = []) /\
  (Z.of_nat (length pixels) = width * height ->
   findCorners pixels width height threshold = Returns []).
Proof.
  intros Rw Rh Hmax Ht U.
  pose proof (scanSpec_uniform pixels width height threshold c Ht U) as S.
  split.
  - intros corners E.
    destruct (findCorners_cases pixels width height threshold Rw Rh Hmax)
      as [F|[F _]]; [|congruence].
    rewrite E, S in F. now injection F.
  - intros Hlen.
    rewrite (findCorners_returns pixels width height Hlen Hmax) by assumption.
    now rewrite S.
Qed.

Lemma findCorners_uniform_witness :
  (forall v, In v flat50 -> v = 50) /\ findCorners flat50 14 9 20 = Returns [].
Proof.
  assert (U : forall v, In v flat50 -> v = 50).
  { intros v Hv. apply (proj1 (Forall_forall (fun v => v = 50) flat50)); [|exact Hv].
    vm_compute. repeat constructor. }
  split; [exact U|].
  apply (findCorners_uniform flat50 14 9 20 50).
  - unfold in_range, min_int, max_int. lia.
  - unfold in_range, min_int, max_int. lia.
  - vm_compute. discriminate.
  - lia.
  - exact U.
  - vm_compute. reflexivity.
Defined.

(** C10. In the list [findCorners] returns, of two corners of the same row
    the later one lies at least four columns to the right, so the x
    coordinates of a row increase strictly in steps of four or more, and no
    pair occurs twice. *)
Theorem findCorners_row_gap (pixels : list Z) (width height threshold : Z)
        (corners : list Z) :
  in_range width -> in_range height ->
  Z.of_nat (length pixels) <= max_int ->
  findCorners pixels width height threshold = Returns corners ->
  (forall a b x1 x2 y, (a < b)%nat ->
     nth_error (pairs corners) a = Some (x1, y) ->
     nth_error (pairs corners) b = Some (x2, y) ->
     x1 + 4 <= x2) /\
  StronglySorted scanOrder (pairs corners) /\
  NoDup (pairs corners).
Proof.
  intros Rw Rh Hmax E.
  destruct (findCorners_cases pixels width height threshold Rw Rh Hmax)
    as [E'|[E' _]]; [|congruence].
  rewrite E in E'. injection E' as ->. rewrite pairs_flatten.
  pose proof (scanSpec_sorted pixels width height threshold) as S.
  split; [|split; [exact S|]].
  - intros a b x1 x2 y Hab Ha Hb.
    pose proof (StronglySorted_nth scanOrder _ S a b _ _ Hab Ha Hb) as R.
    unfold scanOrder in R. cbn [fst snd] in R. lia.
  - apply (StronglySorted_NoDup scanOrder); [|exact S].
    intros [x y]. unfold scanOrder. cbn [fst snd]. lia.
Qed.

Lemma findCorners_row_gap_witness :
  findCorners dots 14 9 20 = Returns [3; 4; 8; 4] /\
  NoDup (pairs [3; 4; 8; 4]).
Proof.
  assert (E : findCorners dots 14 9 20 = Returns [3; 4; 8; 4])
    by (vm_compute; reflexivity).
  split; [exact E|].
  apply (findCorners_row_gap dots 14 9 20 [3; 4; 8; 4]).
  - unfold in_range, min_int, max_int. lia.
  - unfold in_range, min_int, max_int. lia.
  - vm_compute. discriminate.
  - exact E.
Defined.

(* ================================================================== *)
(** ** Further properties of the segment test *)

Lemma gtb_true d t : d > t -> (d >? t) = true.
Proof. rewrite Z.gtb_ltb, Z.ltb_lt. lia. Qed.

Lemma gtb_false d t : d <= t -> (d >? t) = false.
Proof. rewrite Z.gtb_ltb, Z.ltb_ge. lia. Qed.

(** The criterion seen from two candidates with their samples: equal
    differences, equal verdicts. *)
Lemma cornerCriterion_morph d1 d2 p1 p2 cp1 cp2 t :
  (forall k, 0 <= k < 16 ->
     d1 (get16 cp1 k) p1 = d2 (get16 cp2 k) p2 /\
     d1 p1 (get16 cp1 k) = d2 p2 (get16 cp2 k)) ->
  cornerCriterion d1 p1 cp1 t -> cornerCriterion d2 p2 cp2 t.
Proof.
  intros E [Hc [x [Hx Ha]]]. split.
  - destruct Hc as [Hc|Hc]; [left|right];
      (eapply Nat.le_trans; [exact Hc|]); apply Nat.eq_le_incl;
      apply countIf_ext; intros k Hk; cbn beta;
      (assert (0 <= k < 16) as Hr by (unfold compass in Hk; cbn in Hk; lia));
      destruct (E k Hr) as [E1 E2]; congruence.
  - exists x. split; [exact Hx|].
    destruct Ha as [Ha|Ha]; [left|right]; intros y Hy;
      (assert (0 <= (x + y) mod 16 < 16) as Hr by (apply Z.mod_pos_bound; lia));
      destruct (E _ Hr) as [E1 E2]; specialize (Ha y Hy); congruence.
Qed.

(** Brighter and darker play the same part in the criterion. *)
Lemma cornerCriterion_swap d p cp t :
  cornerCriterion d p cp t -> cornerCriterion (fun a b => d b a) p cp t.
Proof.
  intros [Hc [x [Hx Ha]]]. split; [tauto|]. exists x. split; [exact Hx|tauto].
Qed.

Lemma bool_eq_iff (a b : bool) : (a = true <-> b = true) -> a = b.
Proof. destruct a; destruct b; intuition congruence. Qed.

Lemma get16_map f cp k :
  length cp = 16%nat -> 0 <= k < 16 -> get16 (map f cp) k = f (get16 cp k).
Proof.
  intros L Hk. unfold get16.
  rewrite (nth_indep (map f cp) 0 (f 0)) by (rewrite length_map; lia).
  apply map_nth.
Qed.

(** Evaluate the circle indices [(a + b) mod 16] with closed [a], [b]. *)
Ltac circle_indices :=
  repeat match goal with
         | H : context [(?a + ?b) mod 16] |- _ =>
             let v := eval vm_compute in ((a + b) mod 16) in
             change ((a + b) mod 16) with v in H
         end.

(** Twelve consecutive samples on one side of the candidate hold three of
    the compass samples, whatever the start. *)
Lemma compass_of_twelve (p : Z) (cp : list Z) (t x : Z) :
  0 <= x < 16 ->
  (forall y, 0 <= y < 12 -> Int64.sub (get16 cp ((x + y) mod 16)) p > t) \/
  (forall y, 0 <= y < 12 -> Int64.sub p (get16 cp ((x + y) mod 16)) > t) ->
  (3 <= countIf (fun k => Int64.sub (get16 cp k) p >? t) compass)%nat \/
  (3 <= countIf (fun k => Int64.sub p (get16 cp k) >? t) compass)%nat.
Proof.
  intros Hx H.
  unfold countIf, compass. cbn [filter].
  assert (x = 0 \/ x = 1 \/ x = 2 \/ x = 3 \/ x = 4 \/ x = 5 \/ x = 6 \/ x = 7 \/
          x = 8 \/ x = 9 \/ x = 10 \/ x = 11 \/ x = 12 \/ x = 13 \/ x = 14 \/ x = 15)
    as C by lia.
  destruct H as [H|H]; [left|right];
    pose proof (H 0 ltac:(lia)) as H0; pose proof (H 1 ltac:(lia)) as H1;
    pose proof (H 2 ltac:(lia)) as H2; pose proof (H 3 ltac:(lia)) as H3;
    pose proof (H 4 ltac:(lia)) as H4; pose proof (H 5 ltac:(lia)) as H5;
    pose proof (H 6 ltac:(lia)) as H6; pose proof (H 7 ltac:(lia)) as H7;
    pose proof (H 8 ltac:(lia)) as H8; pose proof (H 9 ltac:(lia)) as H9;
    pose proof (H 10 ltac:(lia)) as H10; pose proof (H 11 ltac:(lia)) as H11;
    repeat (destruct C as [C|C];
            [subst x; circle_indices;
             repeat match goal with
                    | G : ?d > t |- context [?d >? t] => rewrite (gtb_true d t G)
                    end;
             match goal with
             | |- context [if ?b then _ else _] => destruct b
             | _ => idtac
             end; cbn; lia |]);
    subst x; circle_indices;
    repeat match goal with
           | G : ?d > t |- context [?d >? t] => rewrite (gtb_true d t G)
           end;
    match goal with
    | |- context [if ?b then _ else _] => destruct b
    | _ => idtac
    end; cbn; lia.
Qed.

(** X1. An arc of twelve consecutive samples on one side of the candidate
    is always accepted, whatever its start: the rejection step only loses
    shorter arcs. *)
Theorem isCorner_arc_of_twelve (p : Z) (cp : list Z) (t x : Z) :
  0 <= x < 16 ->
  (forall y, 0 <= y < 12 -> Int64.sub (get16 cp ((x + y) mod 16)) p > t) \/
  (forall y, 0 <= y < 12 -> Int64.sub p (get16 cp ((x + y) mod 16)) > t) ->
  isCorner p cp t = true.
Proof.
  intros Hx H. apply isCorner_criterion. split.
  - now apply (compass_of_twelve p cp t x).
  - exists x. split; [exact Hx|].
    destruct H as [H|H]; [left|right]; intros y Hy; apply H; lia.
Qed.

Lemma isCorner_arc_of_twelve_witness :
  0 <= 1 < 16 /\
  (forall y, 0 <= y < 12 ->
     Int64.sub (get16 [0; 9; 9; 9; 9; 9; 9; 9; 9; 9; 9; 9; 9; 0; 0; 0] ((1 + y) mod 16)) 0 > 5) /\
  isCorner 0 [0; 9; 9; 9; 9; 9; 9; 9; 9; 9; 9; 9; 9; 0; 0; 0] 5 = true.
Proof.
  assert (A : forall y, 0 <= y < 12 ->
     Int64.sub (get16 [0; 9; 9; 9; 9; 9; 9; 9; 9; 9; 9; 9; 9; 0; 0; 0] ((1 + y) mod 16)) 0 > 5).
  { intros y Hy.
    assert (y = 0 \/ y = 1 \/ y = 2 \/ y = 3 \/ y = 4 \/ y = 5 \/ y = 6 \/ y = 7 \/
            y = 8 \/ y = 9 \/ y = 10 \/ y = 11) as C by lia.
    repeat (destruct C as [C|C]; [subst y; vm_compute; reflexivity|]).
    subst y; vm_compute; reflexivity. }
  split; [lia|]. split; [exact A|].
  apply (isCorner_arc_of_twelve 0 _ 5 1); [lia|]. left. exact A.
Defined.

(** X2. An arc of nine that starts at a compass index (0, 4, 8 or 12) is
    accepted: it holds three compass samples. *)
Theorem isCorner_arc_at_compass (p : Z) (cp : list Z) (t x : Z) :
  In x compass ->
  (forall y, 0 <= y < 9 -> Int64.sub (get16 cp ((x + y) mod 16)) p > t) \/
  (forall y, 0 <= y < 9 -> Int64.sub p (get16 cp ((x + y) mod 16)) > t) ->
  isCorner p cp t = true.
Proof.
  intros Hx H. apply isCorner_criterion. split.
  - unfold countIf. unfold compass in *. cbn [filter]. cbn [In] in Hx.
    destruct H as [H|H]; [left|right];
      pose proof (H 0 ltac:(lia)) as H0; pose proof (H 4 ltac:(lia)) as H4;
      pose proof (H 8 ltac:(lia)) as H8;
      repeat (destruct Hx as [Hx|Hx];
              [subst x; circle_indices;
               repeat match goal with
                      | G : ?d > t |- context [?d >? t] => rewrite (gtb_true d t G)
                      end;
               match goal with
               | |- context [if ?b then _ else _] => destruct b
               | _ => idtac
               end; cbn; lia |]);
      contradiction.
  - exists x. split; [unfold compass in Hx; cbn in Hx; lia|exact H].
Qed.

Lemma isCorner_arc_at_compass_witness :
  In 0 compass /\ isCorner 0 topArcSample 5 = true.
Proof.
  split; [now left|].
  apply (isCorner_arc_at_compass 0 topArcSample 5 0); [now left|].
  left. intros y Hy.
  assert (y = 0 \/ y = 1 \/ y = 2 \/ y = 3 \/ y = 4 \/ y = 5 \/ y = 6 \/ y = 7 \/ y = 8)
    as C by lia.
  repeat (destruct C as [C|C]; [subst y; vm_compute; reflexivity|]).
  subst y; vm_compute; reflexivity.
Defined.

(** X3. Adding one value to the candidate and to all sixteen samples, in
    Go's wrapping arithmetic, leaves the verdict unchanged. *)
Theorem isCorner_shift (p : Z) (cp : list Z) (t c : Z) :
  length cp = 16%nat ->
  isCorner (Int64.add p c) (map (fun v => Int64.add v c) cp) t = isCorner p cp t.
Proof.
  intros L.
  assert (E : forall a b, Int64.sub (Int64.add a c) (Int64.add b c) = Int64.sub a b).
  { intros a b. unfold Int64.sub, Int64.add.
    rewrite wrap_minus_l. unfold Z.sub. rewrite <- (wrap_plus_r (a + c)).
    assert (wrap (- wrap (b + c)) = wrap (- (b + c))) as ->.
    { unfold wrap. f_equal.
      replace (- ((b + c + 2 ^ 63) mod 2 ^ 64 - 2 ^ 63) + 2 ^ 63)
        with (2 ^ 64 - (b + c + 2 ^ 63) mod 2 ^ 64) by lia.
      rewrite Zminus_mod_idemp_r. f_equal. lia. }
    rewrite wrap_plus_r. f_equal. lia. }
  apply bool_eq_iff. rewrite !isCorner_criterion.
  split; apply cornerCriterion_morph; intros k Hk;
    rewrite get16_map by assumption; rewrite !E; auto.
Qed.

Lemma isCorner_shift_witness :
  length topArcSample = 16%nat /\
  isCorner (Int64.add 0 100) (map (fun v => Int64.add v 100) topArcSample) 5
  = isCorner 0 topArcSample 5.
Proof.
  split; [reflexivity|]. apply (isCorner_shift 0 topArcSample 5 100). reflexivity.
Defined.

(** X4. Negating the candidate and all sixteen samples, which turns
    brighter into darker, leaves the verdict unchanged. *)
Theorem isCorner_negate (p : Z) (cp : list Z) (t : Z) :
  length cp = 16%nat ->
  isCorner (Int64.neg p) (map Int64.neg cp) t = isCorner p cp t.
Proof.
  intros L.
  assert (E : forall a b, Int64.sub (Int64.neg a) (Int64.neg b) = Int64.sub b a).
  { intros a b. unfold Int64.sub, Int64.neg.
    rewrite wrap_minus_l. unfold Z.sub.
    assert (W : forall z, wrap (- wrap z) = wrap (- z)).
    { intros z. unfold wrap. f_equal.
      replace (- ((z + 2 ^ 63) mod 2 ^ 64 - 2 ^ 63) + 2 ^ 63)
        with (2 ^ 64 - (z + 2 ^ 63) mod 2 ^ 64) by lia.
      rewrite Zminus_mod_idemp_r. f_equal. lia. }
    rewrite <- (wrap_plus_r (- a)), W, wrap_plus_r. f_equal. lia. }
  apply bool_eq_iff. rewrite !isCorner_criterion. split; intros H.
  - apply cornerCriterion_swap in H. revert H.
    apply cornerCriterion_morph. intros k Hk. cbn beta.
    rewrite get16_map by assumption. rewrite !E. auto.
  - apply cornerCriterion_swap in H. revert H.
    apply cornerCriterion_morph. intros k Hk. cbn beta.
    rewrite get16_map by assumption. rewrite !E. auto.
Qed.

Lemma isCorner_negate_witness :
  length topArcSample = 16%nat /\
  isCorner (Int64.neg 0) (map Int64.neg topArcSample) 5 = isCorner 0 topArcSample 5.
Proof.
  split; [reflexivity|]. apply (isCorner_negate 0 topArcSample 5). reflexivity.
Defined.

Lemma get16_quarterTurn cp k :
  length cp = 16%nat -> 0 <= k < 16 ->
  get16 (quarterTurn cp) k = get16 cp ((k + 4) mod 16).
Proof.
  intros L Hk.
  do 16 (destruct cp as [|? cp]; [discriminate|]).
  destruct cp; [|discriminate].
  assert (k = 0 \/ k = 1 \/ k = 2 \/ k = 3 \/ k = 4 \/ k = 5 \/ k = 6 \/ k = 7 \/
          k = 8 \/ k = 9 \/ k = 10 \/ k = 11 \/ k = 12 \/ k = 13 \/ k = 14 \/ k = 15)
    as C by lia.
  repeat (destruct C as [C|C]; [subst k; reflexivity|]).
  subst k; reflexivity.
Qed.

Lemma quarterTurn_length cp : length cp = 16%nat -> length (quarterTurn cp) = 16%nat.
Proof.
  intros L. unfold quarterTurn.
  rewrite length_app, length_skipn, length_firstn. lia.
Qed.

Lemma quarterTurn_four cp :
  length cp = 16%nat ->
  quarterTurn (quarterTurn (quarterTurn (quarterTurn cp))) = cp.
Proof.
  intros L.
  do 16 (destruct cp as [|? cp]; [discriminate|]).
  destruct cp; [reflexivity|discriminate].
Qed.

(** A quarter turn keeps an accepted sample accepted. *)
Lemma quarterTurn_criterion p cp t :
  length cp = 16%nat ->
  cornerCriterion Int64.sub p cp t ->
  cornerCriterion Int64.sub p (quarterTurn cp) t.
Proof.
  intros L [Hc [x [Hx Ha]]]. split.
  - clear Ha. unfold countIf, compass in *. cbn [filter] in *.
    rewrite !get16_quarterTurn by (assumption || lia).
    change ((0 + 4) mod 16) with 4. change ((4 + 4) mod 16) with 8.
    change ((8 + 4) mod 16) with 12. change ((12 + 4) mod 16) with 0.
    destruct (Int64.sub (get16 cp 0) p >? t);
      destruct (Int64.sub (get16 cp 4) p >? t);
      destruct (Int64.sub (get16 cp 8) p >? t);
      destruct (Int64.sub (get16 cp 12) p >? t);
      destruct (Int64.sub p (get16 cp 0) >? t);
      destruct (Int64.sub p (get16 cp 4) >? t);
      destruct (Int64.sub p (get16 cp 8) >? t);
      destruct (Int64.sub p (get16 cp 12) >? t);
      cbn [length] in *; lia.
  - exists ((x + 12) mod 16). split; [apply Z.mod_pos_bound; lia|].
    assert (I : forall y, 0 <= y < 9 ->
              (((x + 12) mod 16 + y) mod 16 + 4) mod 16 = (x + y) mod 16).
    { intros y Hy. rewrite Z.add_mod_idemp_l by lia.
      replace ((x + 12) mod 16 + y + 4) with ((x + 12) mod 16 + (y + 4)) by lia.
      rewrite Z.add_mod_idemp_l by lia.
      replace (x + 12 + (y + 4)) with (x + y + 1 * 16) by lia.
      now rewrite Z_mod_plus_full. }
    destruct Ha as [Ha|Ha]; [left|right]; intros y Hy;
      rewrite get16_quarterTurn by (assumption || (apply Z.mod_pos_bound; lia));
      rewrite I by assumption; now apply Ha.
Qed.

(** X5. Turning the circle sample by a quarter (four positions) leaves
    the verdict unchanged. *)
Theorem isCorner_quarterTurn (p : Z) (cp : list Z) (t : Z) :
  length cp = 16%nat ->
  isCorner p (quarterTurn cp) t = isCorner p cp t.
Proof.
  intros L. apply bool_eq_iff. rewrite !isCorner_criterion. split.
  - intros H.
    pose proof (quarterTurn_length cp L) as L1.
    pose proof (quarterTurn_length _ L1) as L2.
    pose proof (quarterTurn_length _ L2) as L3.
    apply (quarterTurn_criterion p _ t L1) in H.
    apply (quarterTurn_criterion p _ t L2) in H.
    apply (quarterTurn_criterion p _ t L3) in H.
    now rewrite quarterTurn_four in H.
  - now apply quarterTurn_criterion.
Qed.

Lemma isCorner_quarterTurn_witness :
  length topArcSample = 16%nat /\
  isCorner 0 (quarterTurn topArcSample) 5 = isCorner 0 topArcSample 5.
Proof.
  split; [reflexivity|]. apply (isCorner_quarterTurn 0 topArcSample 5). reflexivity.
Defined.

(** X6. A candidate accepted at a threshold is accepted at every lower
    threshold. *)
Theorem isCorner_threshold_mono (p : Z) (cp : list Z) (t t' : Z) :
  t <= t' -> isCorner p cp t' = true -> isCorner p cp t = true.
Proof. apply isCorner_mono. Qed.

Lemma isCorner_threshold_mono_witness :
  5 <= 9 /\ isCorner 0 topArcSample 9 = true /\ isCorner 0 topArcSample 5 = true.
Proof.
  assert (E : isCorner 0 topArcSample 9 = true) by (vm_compute; reflexivity).
  split; [lia|]. split; [exact E|].
  exact (isCorner_threshold_mono 0 topArcSample 5 9 ltac:(lia) E).
Defined.

(** X7. A candidate from which no sample differs by more than the
    threshold, either way, is rejected; so is every candidate of an 8-bit
    image at a threshold of 255 or more. *)
Theorem isCorner_within_threshold (p : Z) (cp : list Z) (t : Z) :
  (forall k, 0 <= k < 16 ->
     Int64.sub (get16 cp k) p <= t /\ Int64.sub p (get16 cp k) <= t) ->
  isCorner p cp t = false.
Proof.
  intros H. destruct (isCorner p cp t) eqn:E; [|reflexivity].
  apply isCorner_criterion in E. destruct E as [_ [x [Hx Ha]]].
  assert (0 <= (x + 0) mod 16 < 16) as Hk by (apply Z.mod_pos_bound; lia).
  destruct (H _ Hk) as [H1 H2].
  destruct Ha as [Ha|Ha]; specialize (Ha 0 ltac:(lia)); lia.
Qed.

Lemma isCorner_within_threshold_witness :
  (forall k, 0 <= k < 16 ->
     Int64.sub (get16 topArcSample k) 0 <= 10 /\
     Int64.sub 0 (get16 topArcSample k) <= 10) /\
  isCorner 0 topArcSample 10 = false.
Proof.
  assert (A : forall k, 0 <= k < 16 ->
     Int64.sub (get16 topArcSample k) 0 <= 10 /\
     Int64.sub 0 (get16 topArcSample k) <= 10).
  { intros k Hk.
    assert (k = 0 \/ k = 1 \/ k = 2 \/ k = 3 \/ k = 4 \/ k = 5 \/ k = 6 \/ k = 7 \/
            k = 8 \/ k = 9 \/ k = 10 \/ k = 11 \/ k = 12 \/ k = 13 \/ k = 14 \/ k = 15)
      as C by lia.
    repeat (destruct C as [C|C]; [subst k; vm_compute; split; discriminate|]).
    subst k; vm_compute; split; discriminate. }
  split; [exact A|]. exact (isCorner_within_threshold 0 topArcSample 10 A).
Defined.

(** X8. With a negative threshold a candidate whose sixteen samples all
    equal it is accepted: the detector needs a threshold of zero or more. *)
Theorem isCorner_negative_threshold (p : Z) (cp : list Z) (t : Z) :
  t < 0 -> (forall k, 0 <= k < 16 -> get16 cp k = p) ->
  isCorner p cp t = true.
Proof.
  intros Ht U.
  assert (A : forall y, 0 <= y < 12 -> Int64.sub (get16 cp ((0 + y) mod 16)) p > t).
  { intros y Hy. rewrite U by (apply Z.mod_pos_bound; lia).
    unfold Int64.sub. rewrite Z.sub_diag. change (wrap 0) with 0. lia. }
  apply isCorner_criterion. split.
  - apply (compass_of_twelve p cp t 0); [lia|]. left. exact A.
  - exists 0. split; [lia|]. left. intros y Hy. apply A. lia.
Qed.

Lemma isCorner_negative_threshold_witness :
  -1 < 0 /\ isCorner 7 (repeat 7 16) (-1) = true.
Proof.
  split; [lia|].
  apply (isCorner_negative_threshold 7 (repeat 7 16) (-1)); [lia|].
  intros k Hk.
  assert (k = 0 \/ k = 1 \/ k = 2 \/ k = 3 \/ k = 4 \/ k = 5 \/ k = 6 \/ k = 7 \/
          k = 8 \/ k = 9 \/ k = 10 \/ k = 11 \/ k = 12 \/ k = 13 \/ k = 14 \/ k = 15)
    as C by lia.
  repeat (destruct C as [C|C]; [subst k; reflexivity|]).
  subst k; reflexivity.
Defined.

(* ================================================================== *)
(** ** Further properties of the circle offsets *)

Lemma wrap_neg z : wrap (- wrap z) = wrap (- z).
Proof.
  unfold wrap. f_equal.
  replace (- ((z + 2 ^ 63) mod 2 ^ 64 - 2 ^ 63) + 2 ^ 63)
    with (2 ^ 64 - (z + 2 ^ 63) mod 2 ^ 64) by lia.
  rewrite Zminus_mod_idemp_r. f_equal. lia.
Qed.

(** X9. For every width the circle is symmetric about its centre, offset
    [k + 8] being the negation of offset [k], and the walk along it closes:
    one step right of offset 15 is offset 0 again. *)
Theorem getCircleOffsets_symmetric (width : Z) :
  (forall k, (k < 8)%nat ->
     nth (k + 8) (getCircleOffsets width) 0 = Int64.neg (nth k (getCircleOffsets width) 0)) /\
  Int64.add (nth 15 (getCircleOffsets width) 0) 1 = nth 0 (getCircleOffsets width) 0.
Proof.
  rewrite getCircleOffsets_wrap. unfold circleLayout. cbn [map fst snd]. split.
  - intros k Hk. unfold Int64.neg.
    do 8 (destruct k as [|k]; [cbn [nth Nat.add]; rewrite wrap_neg; f_equal; lia|]).
    lia.
  - cbn [nth]. unfold Int64.add. rewrite wrap_plus_l. f_equal. lia.
Qed.

(** X10. From a width of 7 on (and as long as [3 * width + 3] fits in an
    [int]) the sixteen offsets are pairwise different, and none reaches
    further than three rows and three columns. *)
Theorem getCircleOffsets_distinct (width : Z) :
  7 <= width -> 3 * width + 3 <= max_int ->
  NoDup (getCircleOffsets width) /\
  forall o, In o (getCircleOffsets width) -> - (3 * width + 3) <= o <= 3 * width + 3.
Proof.
  intros H7 Hmax. rewrite getCircleOffsets_exact by lia.
  unfold circleLayout. cbn [map fst snd]. split.
  - repeat (constructor;
            [cbn [In]; intros H;
             repeat (destruct H as [H|H]; [lia|]); contradiction|]).
    constructor.
  - intros o H. cbn [In] in H.
    repeat (destruct H as [H|H]; [lia|]). contradiction.
Qed.

Lemma getCircleOffsets_distinct_witness :
  7 <= 7 /\ 3 * 7 + 3 <= max_int /\ NoDup (getCircleOffsets 7).
Proof.
  assert (M : 3 * 7 + 3 <= max_int) by (unfold max_int; lia).
  split; [lia|]. split; [exact M|].
  exact (proj1 (getCircleOffsets_distinct 7 ltac:(lia) M)).
Defined.

(* ================================================================== *)
(** ** Further properties of the scan *)

(** X11. Every corner [findCorners] reports passed the test: the pixel
    and its sixteen circle pixels were read inside the buffer and
    [isCorner] accepted them. *)
Theorem findCorners_sound (pixels : list Z) (width height threshold : Z)
        (corners : list Z) (x y : Z) :
  in_range width -> in_range height ->
  Z.of_nat (length pixels) <= max_int ->
  findCorners pixels width height threshold = Returns corners ->
  In (x, y) (pairs corners) ->
  exists p cp,
    index pixels (Int64.add (Int64.mul y width) x) = Returns p /\
    readCircle pixels (Int64.add (Int64.mul y width) x) (getCircleOffsets width)
      = Returns cp /\
    isCorner p cp threshold = true.
Proof.
  intros Rw Rh Hmax E Hin.
  destruct (findCorners_cases pixels width height threshold Rw Rh Hmax)
    as [E'|[E' _]]; [|congruence].
  rewrite E in E'. injection E' as ->. rewrite pairs_flatten in Hin.
  apply scanSpec_In in Hin. destruct Hin as [_ [_ A]].
  unfold accepted, candidate in A.
  destruct (index pixels (Int64.add (Int64.mul y width) x)) as [p| |];
    cbn [bind] in A; try discriminate.
  destruct (readCircle pixels (Int64.add (Int64.mul y width) x)
              (getCircleOffsets width)) as [cp| |]; cbn [bind] in A; try discriminate.
  exists p, cp. repeat split. destruct (isCorner p cp threshold); congruence.
Qed.

Lemma findCorners_sound_witness :
  findCorners dots 14 9 20 = Returns [3; 4; 8; 4] /\
  exists p cp,
    index dots (Int64.add (Int64.mul 4 14) 8) = Returns p /\
    readCircle dots (Int64.add (Int64.mul 4 14) 8) (getCircleOffsets 14) = Returns cp /\
    isCorner p cp 20 = true.
Proof.
  assert (E : findCorners dots 14 9 20 = Returns [3; 4; 8; 4])
    by (vm_compute; reflexivity).
  split; [exact E|].
  apply (findCorners_sound dots 14 9 20 [3; 4; 8; 4] 8 4).
  - unfold in_range, min_int, max_int. lia.
  - unfold in_range, min_int, max_int. lia.
  - vm_compute. discriminate.
  - exact E.
  - cbn. right. now left.
Defined.

(** An accepted column of a row is selected, or lies at most three columns
    right of a selected one. *)
Lemma selectRow_covers accept row hi :
  forall n lo, (Z.to_nat (hi - lo) <= n)%nat ->
    forall c, lo <= c < hi -> accept c = true ->
      exists c', In (c', row) (selectRow accept row 0 (zrange lo hi)) /\ c - 3 <= c' <= c.
Proof.
  induction n as [|n IH]; intros lo Hn c Hc A; [lia|].
  rewrite selectRow_step by lia.
  destruct (accept lo) eqn:El.
  - destruct (Z.le_gt_cases c (lo + 3)) as [Near|Far].
    + exists lo. split; [now left|lia].
    + destruct (IH (lo + 4) ltac:(lia) c ltac:(lia) A) as [c' [Hin Hc']].
      exists c'. split; [now right|exact Hc'].
  - assert (c <> lo) by congruence.
    apply (IH (lo + 1)); [lia | lia | exact A].
Qed.

(** X12. The passing over of columns only hides corners next to a reported
    one: every interior pixel that passes the test is reported, or lies at
    most three columns right of a reported corner of its row. *)
Theorem findCorners_covers (pixels : list Z) (width height threshold : Z)
        (corners : list Z) (x y : Z) :
  in_range width -> in_range height ->
  Z.of_nat (length pixels) <= max_int ->
  findCorners pixels width height threshold = Returns corners ->
  3 <= x <= width - 4 -> 3 <= y <= height - 4 ->
  candidate pixels width threshold y x = Returns true ->
  exists x', In (x', y) (pairs corners) /\ x - 3 <= x' <= x.
Proof.
  intros Rw Rh Hmax E Hx Hy A.
  destruct (findCorners_cases pixels width height threshold Rw Rh Hmax)
    as [E'|[E' _]]; [|congruence].
  rewrite E in E'. injection E' as ->. rewrite pairs_flatten.
  destruct (selectRow_covers (accepted pixels width threshold y) y (width - 3)
              (Z.to_nat (width - 3 - 3)) 3 ltac:(lia) x ltac:(lia))
    as [x' [Hin Hx']]; [unfold accepted; now rewrite A|].
  exists x'. split; [|exact Hx'].
  unfold scanSpec. apply in_flat_map. exists y. split; [apply In_zrange; lia|exact Hin].
Qed.

Lemma findCorners_covers_witness :
  findCorners dots 14 9 20 = Returns [3; 4; 8; 4] /\
  candidate dots 14 20 4 4 = Returns true /\
  exists x', In (x', 4) (pairs [3; 4; 8; 4]) /\ 4 - 3 <= x' <= 4.
Proof.
  assert (E : findCorners dots 14 9 20 = Returns [3; 4; 8; 4])
    by (vm_compute; reflexivity).
  assert (A : candidate dots 14 20 4 4 = Returns true) by (vm_compute; reflexivity).
  split; [exact E|]. split; [exact A|].
  apply (findCorners_covers dots 14 9 20 [3; 4; 8; 4] 4 4).
  - unfold in_range, min_int, max_int. lia.
  - unfold in_range, min_int, max_int. lia.
  - vm_compute. discriminate.
  - exact E.
  - lia.
  - lia.
  - exact A.
Defined.

Lemma readCircle_panics s w offs o :
  In o offs -> index s (Int64.add w o) = Panics -> readCircle s w offs = Panics.
Proof.
  induction offs as [|o' os IH]; intros Hin P; [contradiction|].
  cbn [readCircle].
  pose proof (index_fuel s (Int64.add w o')) as NF.
  destruct Hin as [->|Hin].
  - now rewrite P.
  - destruct (index s (Int64.add w o')); cbn [bind]; try congruence.
    now rewrite (IH Hin P).
Qed.

(** X13. A buffer too short for the circle of the first candidate makes
    the scan panic: with [width] and [height] at least 7 and at most
    [6 * width + 3] pixels, [findCorners] panics.  The empty buffer is one
    such. *)
Theorem findCorners_short_buffer (pixels : list Z) (width height threshold : Z) :
  7 <= width -> 7 <= height -> in_range height ->
  6 * width + 3 <= max_int ->
  Z.of_nat (length pixels) <= 6 * width + 3 ->
  findCorners pixels width height threshold = Panics.
Proof.
  intros W7 H7 Rh Hmax Hlen. unfold in_range, min_int, max_int in *.
  assert (Int64.sub width 3 = width - 3) as Ebw
      by (apply wrap_small; unfold in_range, min_int, max_int; lia).
  assert (Int64.sub height 3 = height - 3) as Ebh
      by (apply wrap_small; unfold in_range, min_int, max_int; lia).
  assert (candidate pixels width threshold 3 3 = Panics) as P.
  { assert (Int64.add (Int64.mul 3 width) 3 = 3 * width + 3) as Ew.
    { unfold Int64.add, Int64.mul. rewrite wrap_plus_l.
      apply wrap_small. unfold in_range, min_int, max_int. lia. }
    unfold candidate. rewrite Ew.
    pose proof (index_fuel pixels (3 * width + 3)) as NF.
    destruct (index pixels (3 * width + 3)); cbn [bind]; try congruence.
    rewrite (readCircle_panics pixels (3 * width + 3) _ (3 * width + 0));
      [reflexivity| |].
    - rewrite getCircleOffsets_exact by (unfold max_int; lia).
      unfold circleLayout. cbn [map fst snd In]. do 8 right. left. reflexivity.
    - apply index_out_of_bounds. right.
      unfold Int64.add. rewrite wrap_small by (unfold in_range, min_int, max_int; lia).
      lia. }
  unfold findCorners. rewrite Ebw, Ebh.
  destruct (Z.to_nat (height - 3 - 3)) as [|fuel] eqn:Ef; [lia|].
  destruct (Z.to_nat (width - 3 - 3)) as [|rf] eqn:Er; [lia|].
  cbn [imageLoop]. rewrite Ebh. destruct (Z.ltb_spec 3 (height - 3)); [|lia].
  rewrite (rowLoop_step pixels width threshold 3 rf 3 []) by lia.
  now rewrite P.
Qed.

Lemma findCorners_short_buffer_witness :
  Z.of_nat (length (@nil Z)) <= 6 * 7 + 3 /\ findCorners [] 7 7 20 = Panics.
Proof.
  split; [cbn; lia|].
  apply (findCorners_short_buffer [] 7 7 20); try lia.
  - unfold in_range, min_int, max_int. lia.
  - unfold max_int. lia.
  - cbn. lia.
Defined.

(** X14. With [width] or [height] below 7 (and not among the three
    smallest values of [int]) the scan reads nothing and returns the empty
    list, whatever the buffer, the empty one included. *)
Theorem findCorners_small_image (pixels : list Z) (width height threshold : Z) :
  min_int + 3 <= width < 7 \/ min_int + 3 <= height < 7 ->
  findCorners pixels width height threshold = Returns [].
Proof.
  intros [Hw|Hh]; unfold findCorners.
  - assert (Int64.sub width 3 = width - 3) as Ebw
        by (apply wrap_small; unfold in_range, min_int, max_int in *; lia).
    destruct (imageLoop_spec pixels width height threshold
                ltac:(rewrite Ebw; unfold max_int; lia)
                (Z.to_nat (Int64.sub height 3 - 3)) 3 [])
      as [[_ [i' [j' [_ [Hj' _]]]]]|E]; [unfold min_int; lia | lia | lia |].
    rewrite E. cbn [app].
    rewrite flat_map_nil; [reflexivity|].
    intros row _. rewrite zrange_nil; [reflexivity|lia].
  - apply imageLoop_exit. unfold Int64.sub.
    rewrite wrap_small by (unfold in_range, min_int, max_int in *; lia). lia.
Qed.

Lemma findCorners_small_image_witness :
  (min_int + 3 <= 6 < 7 \/ min_int + 3 <= 100 < 7) /\
  findCorners [] 6 100 20 = Returns [].
Proof.
  assert (H : min_int + 3 <= 6 < 7 \/ min_int + 3 <= 100 < 7)
    by (left; unfold min_int; lia).
  split; [exact H|]. exact (findCorners_small_image [] 6 100 20 H).
Defined.

Lemma index_app_l s extra w :
  0 <= w < Z.of_nat (length s) -> index (s ++ extra) w = index s w.
Proof.
  intros H. unfold index. destruct (Z.ltb_spec w 0); [reflexivity|].
  rewrite nth_error_app1 by lia. reflexivity.
Qed.

Lemma readCircle_app_l s extra w offs :
  (forall o, In o offs -> 0 <= Int64.add w o < Z.of_nat (length s)) ->
  readCircle (s ++ extra) w offs = readCircle s w offs.
Proof.
  induction offs as [|o os IH]; intros H; [reflexivity|].
  cbn [readCircle]. rewrite index_app_l by (apply H; now left).
  rewrite IH by (intros; apply H; now right). reflexivity.
Qed.

Lemma flat_map_agree {A B} (f g : A -> list B) l :
  (forall a, In a l -> f a = g a) -> flat_map f l = flat_map g l.
Proof.
  induction l as [|a l IH]; intros H; [reflexivity|].
  cbn [flat_map]. rewrite (H a) by now left.
  rewrite IH by (intros; apply H; now right). reflexivity.
Qed.

Lemma selectRow_ext accept accept' row k cols :
  (forall c, In c cols -> accept c = accept' c) ->
  selectRow accept row k cols = selectRow accept' row k cols.
Proof.
  revert k. induction cols as [|c cols IH]; intros k H; [reflexivity|].
  cbn [selectRow]. destruct k.
  - rewrite (H c) by now left.
    rewrite !IH by (intros; apply H; now right). reflexivity.
  - apply IH. intros; apply H; now right.
Qed.

(** A buffer of [width * height] pixels rules out the dimensions at which
    the scan runs off the slice. *)
Lemma grid_dimensions (n width height : Z) :
  in_range width -> in_range height ->
  n = width * height -> 0 <= n <= max_int ->
  ~ (width < min_int + 3 /\ 3 < Int64.sub height 3) /\
  ~ (height < min_int + 3 /\ 7 <= width).
Proof.
  intros Rw Rh Hlen Hn. split.
  - intros [Zw Hb]. unfold in_range, min_int, max_int in *.
    destruct (Z.lt_ge_cases height (- 2 ^ 63 + 3)) as [Zh|Zh]; [nia|].
    rewrite sub3_regular in Hb; unfold in_range, min_int, max_int; nia.
  - intros [Zh W7]. unfold in_range, min_int, max_int in *. nia.
Qed.

(** X15. Pixels beyond the first [width * height] are never looked at:
    appending data to a buffer of that length does not change the result. *)
Theorem findCorners_ignores_tail (pixels extra : list Z) (width height threshold : Z) :
  in_range width -> in_range height ->
  Z.of_nat (length pixels) = width * height ->
  Z.of_nat (length (pixels ++ extra)) <= max_int ->
  findCorners (pixels ++ extra) width height threshold
  = findCorners pixels width height threshold.
Proof.
  intros Rw Rh Hlen Hmax'.
  assert (Hmax : Z.of_nat (length pixels) <= max_int)
    by (rewrite length_app in Hmax'; lia).
  pose proof (findCorners_returns pixels width height Hlen Hmax threshold Rw Rh) as R.
  assert (A : forall i j, 3 <= i < height - 3 -> 3 <= j < width - 3 ->
              candidate (pixels ++ extra) width threshold i j
              = candidate pixels width threshold i j).
  { intros i j Hi Hj.
    destruct (interior_reads pixels width height Hlen Hmax i j Hi Hj) as [_ [B C]].
    unfold candidate. rewrite <- Hlen in B, C.
    rewrite index_app_l by exact B. rewrite readCircle_app_l by exact C.
    reflexivity. }
  assert (S : scanSpec (pixels ++ extra) width height threshold
              = scanSpec pixels width height threshold).
  { unfold scanSpec. apply flat_map_agree. intros row Hrow.
    apply In_zrange in Hrow. apply selectRow_ext. intros c Hc.
    apply In_zrange in Hc. unfold accepted. rewrite A by lia. reflexivity. }
  destruct (findCorners_cases (pixels ++ extra) width height threshold Rw Rh Hmax')
    as [E|[_ [[i [j [Hi [Hj P]]]]|[[Zw Hb]|[Zh W7]]]]].
  - exact (eq_trans E (eq_trans (f_equal (fun l => Returns (flatten l)) S) (eq_sym R))).
  - rewrite (A i j Hi Hj) in P.
    destruct (interior_candidate pixels width height Hlen Hmax threshold i j Hi Hj)
      as [b E]. congruence.
  - exfalso.
    apply (proj1 (grid_dimensions _ width height Rw Rh Hlen ltac:(lia))). now split.
  - exfalso.
    apply (proj2 (grid_dimensions _ width height Rw Rh Hlen ltac:(lia))). now split.
Qed.

Lemma findCorners_ignores_tail_witness :
  Z.of_nat (length dots) = 14 * 9 /\
  findCorners (dots ++ [255; 255; 255]) 14 9 20 = findCorners dots 14 9 20.
Proof.
  split; [vm_compute; reflexivity|].
  apply (findCorners_ignores_tail dots [255; 255; 255] 14 9 20).
  - unfold in_range, min_int, max_int. lia.
  - unfold in_range, min_int, max_int. lia.
  - vm_compute. reflexivity.
  - vm_compute. discriminate.
Defined.

(** A row of [n] columns holds at most [(n + 3) / 4] selections. *)
Lemma selectRow_length_bound accept row hi :
  forall n lo, (Z.to_nat (hi - lo) <= n)%nat ->
    Z.of_nat (length (selectRow accept row 0 (zrange lo hi)))
    <= Z.max 0 ((hi - lo + 3) / 4).
Proof.
  induction n as [|n IH]; intros lo Hn.
  - rewrite zrange_nil by lia. cbn. lia.
  - destruct (Z.lt_ge_cases lo hi) as [H|H].
    2:{ rewrite zrange_nil by lia. cbn. lia. }
    rewrite selectRow_step by exact H.
    destruct (accept lo).
    + cbn [length]. specialize (IH (lo + 4) ltac:(lia)).
      assert ((hi - lo + 3) / 4 = (hi - (lo + 4) + 3) / 4 + 1) as ->.
      { replace (hi - lo + 3) with (hi - (lo + 4) + 3 + 1 * 4) by lia.
        now rewrite Z.div_add by lia. }
      assert (0 <= (hi - (lo + 4) + 3) / 4) by (apply Z.div_pos; lia).
      lia.
    + specialize (IH (lo + 1) ltac:(lia)).
      assert ((hi - (lo + 1) + 3) / 4 <= (hi - lo + 3) / 4)
        by (apply Z.div_le_mono; lia).
      lia.
Qed.

Lemma flat_map_length_bound {A B} (f : A -> list B) l b :
  (forall a, In a l -> Z.of_nat (length (f a)) <= b) ->
  Z.of_nat (length (flat_map f l)) <= Z.of_nat (length l) * b.
Proof.
  intros H. induction l as [|a l IH]; [cbn; lia|].
  cbn [flat_map length]. rewrite length_app.
  specialize (H a (or_introl eq_refl)) as Ha.
  assert (Z.of_nat (length (flat_map f l)) <= Z.of_nat (length l) * b)
    by (apply IH; intros; apply H; now right).
  lia.
Qed.

(** The pairs of one row [y] among those selected for the rows [lo] to
    [hi - 1]: none when [y] is not one of these rows, and otherwise no more
    than the row [y] holds. *)
Lemma row_of_rows (f : Z -> list (Z * Z)) (y b hi : Z) :
  (forall row q, In q (f row) -> snd q = row) ->
  (forall row, Z.of_nat (length (f row)) <= b) -> 0 <= b ->
  forall n lo, (Z.to_nat (hi - lo) <= n)%nat ->
    Z.of_nat (length (filter (fun q => snd q =? y) (flat_map f (zrange lo hi)))) <= b /\
    (y < lo -> filter (fun q => snd q =? y) (flat_map f (zrange lo hi)) = []).
Proof.
  intros Hrow Hb Hb0.
  assert (Other : forall row, row <> y ->
                    filter (fun q : Z * Z => snd q =? y) (f row) = []).
  { intros row Hne.
    assert (G : forall l : list (Z * Z), (forall q, In q l -> snd q = row) ->
                          filter (fun q : Z * Z => snd q =? y) l = []).
    { induction l as [|q l IH]; intros Hl; [reflexivity|].
      cbn [filter]. rewrite (Hl q (or_introl eq_refl)).
      destruct (Z.eqb_spec row y); [contradiction|].
      apply IH. intros; apply Hl; now right. }
    apply G. apply Hrow. }
  induction n as [|n IH]; intros lo Hn.
  - rewrite zrange_nil by lia. cbn. split; [lia|reflexivity].
  - destruct (Z.lt_ge_cases lo hi) as [H|H].
    2:{ rewrite zrange_nil by lia. cbn. split; [lia|reflexivity]. }
    rewrite (zrange_cons lo hi H). cbn [flat_map]. rewrite filter_app.
    destruct (IH (lo + 1) ltac:(lia)) as [IHb IHn].
    destruct (Z.eq_dec lo y) as [->|Hne].
    + rewrite IHn by lia. rewrite app_nil_r. split; [|lia].
      eapply Z.le_trans; [|apply (Hb y)].
      apply Nat2Z.inj_le. apply filter_length_le.
    + rewrite Other by exact Hne. cbn [app]. split; [exact IHb|].
      intros Hy. apply IHn. lia.
Qed.

(** X16. The scan reports at most [(width - 3) / 4] corners in each row,
    hence at most that many times [height - 6] in all. *)
Theorem findCorners_count_bound (pixels : list Z) (width height threshold : Z)
        (corners : list Z) :
  in_range width -> in_range height ->
  Z.of_nat (length pixels) <= max_int ->
  findCorners pixels width height threshold = Returns corners ->
  (forall y,
     Z.of_nat (length (filter (fun q => snd q =? y) (pairs corners)))
     <= Z.max 0 ((width - 3) / 4)) /\
  Z.of_nat (length (pairs corners))
  <= Z.max 0 (height - 6) * Z.max 0 ((width - 3) / 4).
Proof.
  intros Rw Rh Hmax E.
  destruct (findCorners_cases pixels width height threshold Rw Rh Hmax)
    as [E'|[E' _]]; [|congruence].
  rewrite E in E'. injection E' as ->. rewrite pairs_flatten.
  assert (B : forall row,
             Z.of_nat (length (selectRow (accepted pixels width threshold row) row 0
                                         (zrange 3 (width - 3))))
             <= Z.max 0 ((width - 3) / 4)).
  { intros row.
    pose proof (selectRow_length_bound (accepted pixels width threshold row) row
                  (width - 3) (Z.to_nat (width - 3 - 3)) 3 ltac:(lia)) as B.
    replace (width - 3 - 3 + 3) with (width - 3) in B by lia. exact B. }
  split.
  - intros y. unfold scanSpec.
    apply (row_of_rows
             (fun row => selectRow (accepted pixels width threshold row) row 0
                                   (zrange 3 (width - 3)))
             y (Z.max 0 ((width - 3) / 4)) (height - 3)
             ltac:(intros row [x r] H; apply selectRow_In in H; now destruct H as [-> _])
             B ltac:(lia) (Z.to_nat (height - 3 - 3)) 3 ltac:(lia)).
  - unfold scanSpec. eapply Z.le_trans.
    + apply (flat_map_length_bound _ _ (Z.max 0 ((width - 3) / 4))).
      intros row _. apply B.
    + unfold zrange. rewrite length_map, length_seq.
      apply Z.mul_le_mono_nonneg_r; lia.
Qed.

Lemma findCorners_count_bound_witness :
  findCorners dots 14 9 20 = Returns [3; 4; 8; 4] /\
  Z.of_nat (length (filter (fun q => snd q =? 4) (pairs [3; 4; 8; 4])))
  <= Z.max 0 ((14 - 3) / 4) /\
  Z.of_nat (length (pairs [3; 4; 8; 4])) <= Z.max 0 (9 - 6) * Z.max 0 ((14 - 3) / 4).
Proof.
  assert (E : findCorners dots 14 9 20 = Returns [3; 4; 8; 4])
    by (vm_compute; reflexivity).
  split; [exact E|].
  assert (Rw : in_range 14) by (unfold in_range, min_int, max_int; lia).
  assert (Rh : in_range 9) by (unfold in_range, min_int, max_int; lia).
  assert (Hm : Z.of_nat (length dots) <= max_int) by (vm_compute; discriminate).
  destruct (findCorners_count_bound dots 14 9 20 [3; 4; 8; 4] Rw Rh Hm E) as [A B].
  split; [exact (A 4)|exact B].
Defined.

(* ================================================================== *)
(** ** The scan over a map *)

Lemma readCircleMap_ext m m' w offs :
  (forall k, GoMap.get m k = GoMap.get m' k) ->
  readCircleMap m w offs = readCircleMap m' w offs.
Proof.
  intros E. induction offs as [|o os IH]; [reflexivity|].
  cbn [readCircleMap]. now rewrite E, IH.
Qed.

Lemma rowLoopMap_ext m m' width t offs i :
  (forall k, GoMap.get m k = GoMap.get m' k) ->
  forall fuel j corners,
    rowLoopMap m width t offs i fuel j corners
    = rowLoopMap m' width t offs i fuel j corners.
Proof.
  intros E. induction fuel as [|fuel IH]; intros j corners; [reflexivity|].
  cbn [rowLoopMap]. rewrite E, (readCircleMap_ext m m' _ _ E), !IH. reflexivity.
Qed.

Lemma imageLoopMap_ext m m' width height t offs rf :
  (forall k, GoMap.get m k = GoMap.get m' k) ->
  forall fuel i corners,
    imageLoopMap m width height t offs rf fuel i corners
    = imageLoopMap m' width height t offs rf fuel i corners.
Proof.
  intros E. induction fuel as [|fuel IH]; intros i corners; [reflexivity|].
  cbn [imageLoopMap]. rewrite (rowLoopMap_ext m m' width t offs i E).
  destruct (rowLoopMap m' width t offs i rf 3 corners); cbn [bind];
    try reflexivity.
  destruct (i <? Int64.sub height 3); [apply IH|reflexivity].
Qed.

Section MapProofs.

Variables (pixels : GoMap.t) (width height threshold : Z).

Let bw := Int64.sub width 3.
Let bh := Int64.sub height 3.
Let acc := acceptedMap pixels width threshold.

Lemma rowLoopMap_exit i fuel j corners :
  bw <= j ->
  rowLoopMap pixels width threshold (getCircleOffsets width) i fuel j corners
  = Returns corners.
Proof.
  intros Hj. destruct fuel; cbn [rowLoopMap]; fold bw;
    destruct (Z.ltb_spec j bw); (lia || reflexivity).
Qed.

(** On a map the column loop returns the corners it was given followed by
    the row's selection. *)
Lemma rowLoopMap_spec i :
  bw <= max_int - 3 ->
  forall fuel j corners,
    min_int <= j ->
    (Z.to_nat (bw - j) <= fuel)%nat ->
    rowLoopMap pixels width threshold (getCircleOffsets width) i fuel j corners =
      Returns (corners ++ flatten (selectRow (acc i) i 0 (zrange j bw))).
Proof.
  intros Hbw. induction fuel as [|fuel IH]; intros j corners Hlo Hfuel.
  - rewrite rowLoopMap_exit by lia. rewrite zrange_nil by lia.
    cbn. now rewrite app_nil_r.
  - destruct (Z.lt_ge_cases j bw) as [Hj|Hj].
    2:{ rewrite rowLoopMap_exit by lia. rewrite zrange_nil by lia.
        cbn. now rewrite app_nil_r. }
    cbn [rowLoopMap]. fold bw. destruct (Z.ltb_spec j bw); [|lia].
    rewrite (selectRow_step (acc i) i j bw Hj).
    unfold acc at 1. unfold acceptedMap.
    destruct (isCorner _ _ threshold).
    + assert (Int64.add (Int64.add j 3) 1 = j + 4) as ->.
      { unfold Int64.add. rewrite wrap_plus_l.
        replace (j + 3 + 1) with (j + 4) by lia. apply wrap_small.
        unfold in_range, min_int, max_int in *. lia. }
      rewrite IH by lia. cbn [flatten]. now rewrite <- app_assoc.
    + assert (Int64.add j 1 = j + 1) as ->.
      { apply wrap_small. unfold in_range, min_int, max_int in *. lia. }
      apply IH; lia.
Qed.

Lemma imageLoopMap_exit rowFuel fuel i corners :
  bh <= i ->
  imageLoopMap pixels width height threshold (getCircleOffsets width)
               rowFuel fuel i corners = Returns corners.
Proof.
  intros Hi. destruct fuel; cbn [imageLoopMap]; fold bh;
    destruct (Z.ltb_spec i bh); (lia || reflexivity).
Qed.

Lemma imageLoopMap_spec :
  bw <= max_int - 3 ->
  forall fuel i corners,
    min_int <= i ->
    (Z.to_nat (bh - i) <= fuel)%nat ->
    imageLoopMap pixels width height threshold (getCircleOffsets width)
                 (Z.to_nat (bw - 3)) fuel i corners =
      Returns (corners ++
               flatten (flat_map (fun row => selectRow (acc row) row 0 (zrange 3 bw))
                                 (zrange i bh))).
Proof.
  intros Hbw. pose proof (wrap_in_range (height - 3)) as Hbh.
  fold (Int64.sub height 3) in Hbh. fold bh in Hbh. unfold in_range in Hbh.
  induction fuel as [|fuel IH]; intros i corners Hlo Hfuel.
  - rewrite imageLoopMap_exit by lia. rewrite (zrange_nil i bh) by lia.
    cbn. now rewrite app_nil_r.
  - destruct (Z.lt_ge_cases i bh) as [Hi|Hi].
    2:{ rewrite imageLoopMap_exit by lia. rewrite (zrange_nil i bh) by lia.
        cbn. now rewrite app_nil_r. }
    cbn [imageLoopMap]. fold bh bw. destruct (Z.ltb_spec i bh); [|lia].
    rewrite (rowLoopMap_spec i Hbw) by (unfold min_int; lia). cbn [bind].
    assert (Int64.add i 1 = i + 1) as ->.
    { apply wrap_small. unfold in_range, min_int, max_int in *. lia. }
    rewrite (zrange_cons i bh Hi). cbn [flat_map].
    rewrite IH by lia. now rewrite flatten_app, app_assoc.
Qed.

(** With a [width] whose [- 3] does not wrap, the scan over a map returns
    the selection over its machine bounds. *)
Lemma FindCorners_machine :
  bw <= max_int - 3 ->
  FindCorners pixels width height threshold =
  Returns (flatten (flat_map (fun row => selectRow (acc row) row 0 (zrange 3 bw))
                             (zrange 3 bh))).
Proof.
  intros Hbw. unfold FindCorners. fold bw bh.
  rewrite imageLoopMap_spec; [reflexivity | exact Hbw | unfold min_int; lia | lia].
Qed.

Lemma FindCorners_regular :
  min_int + 3 <= width -> in_range width ->
  min_int + 3 <= height -> in_range height ->
  FindCorners pixels width height threshold
  = Returns (flatten (scanSpecMap pixels width height threshold)).
Proof.
  intros Zw Rw Zh Rh.
  assert (bw = width - 3) as Ebw by (now apply sub3_regular).
  assert (bh = height - 3) as Ebh by (now apply sub3_regular).
  rewrite FindCorners_machine by (unfold in_range in Rw; lia).
  unfold scanSpecMap. fold acc. now rewrite Ebw, Ebh.
Qed.

End MapProofs.

Lemma scanSpecMap_In pixels width height t x y :
  In (x, y) (scanSpecMap pixels width height t) ->
  3 <= x <= width - 4 /\ 3 <= y <= height - 4 /\
  acceptedMap pixels width t y x = true.
Proof.
  unfold scanSpecMap. rewrite in_flat_map. intros [row [Hrow H]].
  apply selectRow_In in H. destruct H as [-> [Hx Ha]].
  apply In_zrange in Hrow, Hx. repeat split; try lia. exact Ha.
Qed.

Lemma scanSpecMap_sorted pixels width height t :
  StronglySorted scanOrder (scanSpecMap pixels width height t).
Proof.
  unfold scanSpecMap. eapply rows_sorted; [| |reflexivity].
  - intros row. eapply selectRow_sorted. reflexivity.
  - intros row [x y] H. apply selectRow_In in H. now destruct H as [-> _].
Qed.

(** X17. The scan over a map never panics: for a width and a height that
    are not among the three smallest values of [int] it returns, and what it
    returns is the row-major selection of the scan over a slice, made with
    the pixels of the map.  Every reported corner lies in
    [3 .. width-4] x [3 .. height-4], passed [isCorner], and of two corners
    of a row the later one lies at least four columns to the right. *)
Theorem FindCorners_total (pixels : GoMap.t) (width height threshold : Z) :
  min_int + 3 <= width -> in_range width ->
  min_int + 3 <= height -> in_range height ->
  exists corners,
    FindCorners pixels width height threshold = Returns corners /\
    pairs corners = scanSpecMap pixels width height threshold /\
    corners = flatten (pairs corners) /\
    (forall x y, In (x, y) (pairs corners) ->
       3 <= x <= width - 4 /\ 3 <= y <= height - 4 /\
       isCorner (GoMap.get pixels (Int64.add (Int64.mul y width) x))
                (readCircleMap pixels (Int64.add (Int64.mul y width) x)
                               (getCircleOffsets width))
                threshold = true) /\
    StronglySorted scanOrder (pairs corners).
Proof.
  intros Zw Rw Zh Rh.
  exists (flatten (scanSpecMap pixels width height threshold)).
  rewrite pairs_flatten.
  split; [now apply FindCorners_regular|].
  split; [reflexivity|]. split; [reflexivity|]. split.
  - intros x y H. apply scanSpecMap_In in H. exact H.
  - apply scanSpecMap_sorted.
Qed.

Lemma FindCorners_total_witness :
  (min_int + 3 <= 14 /\ in_range 14 /\ min_int + 3 <= 9 /\ in_range 9) /\
  exists corners, FindCorners (GoMap.ofSlice dots) 14 9 20 = Returns corners.
Proof.
  assert (A : min_int + 3 <= 14) by (unfold min_int; lia).
  assert (B : in_range 14) by (unfold in_range, min_int, max_int; lia).
  assert (C : min_int + 3 <= 9) by (unfold min_int; lia).
  assert (D : in_range 9) by (unfold in_range, min_int, max_int; lia).
  split; [repeat split; assumption|].
  destruct (FindCorners_total (GoMap.ofSlice dots) 14 9 20 A B C D) as [cs [E _]].
  exists cs. exact E.
Defined.

Lemma list_lookup_nth_error {A} (l : list A) (i : nat) :
  @stdpp.base.lookup nat A (list A) (@stdpp.list_basics.list.list_lookup A) i l
  = nth_error l i.
Proof.
  revert i. induction l as [|a l IH]; intros [|i]; cbn; auto.
Qed.

(** The map made from a slice reads like the slice. *)
Lemma get_ofSlice l k v :
  index l k = Returns v -> GoMap.get (GoMap.ofSlice l) k = v.
Proof.
  intros H. apply index_Returns in H. destruct H as [Hk H].
  unfold GoMap.get, GoMap.ofSlice.
  rewrite stdpp.fin_maps.lookup_map_seqZ_0 by lia.
  now rewrite list_lookup_nth_error, H.
Qed.

Lemma get_empty k : GoMap.get GoMap.empty k = 0.
Proof.
  unfold GoMap.get, GoMap.empty.
  now rewrite stdpp.fin_maps.lookup_empty.
Qed.

Lemma readCircle_map_agree pixels m w offs cps :
  (forall k v, index pixels k = Returns v -> GoMap.get m k = v) ->
  readCircle pixels w offs = Returns cps ->
  readCircleMap m w offs = cps.
Proof.
  intros M. revert cps. induction offs as [|o os IH]; intros cps; cbn [readCircle].
  - now intros [= <-].
  - destruct (index pixels (Int64.add w o)) as [v| |] eqn:E; cbn [bind]; try discriminate.
    destruct (readCircle pixels w os) as [vs| |]; cbn [bind]; try discriminate.
    intros [= <-]. cbn [readCircleMap]. now rewrite (M _ _ E), (IH vs eq_refl).
Qed.

(** X18. The scan over a map and the scan over a slice agree: when the map
    reads like a buffer of [width * height] pixels on the indices of the
    buffer, [FindCorners] on the map returns what [findCorners] returns on
    the buffer. *)
Theorem FindCorners_agrees (pixels : list Z) (m : GoMap.t)
        (width height threshold : Z) :
  in_range width -> in_range height ->
  Z.of_nat (length pixels) = width * height ->
  Z.of_nat (length pixels) <= max_int ->
  (forall k v, index pixels k = Returns v -> GoMap.get m k = v) ->
  FindCorners m width height threshold = findCorners pixels width height threshold.
Proof.
  intros Rw Rh Hlen Hmax M.
  pose proof (findCorners_returns pixels width height Hlen Hmax threshold Rw Rh) as R.
  destruct (grid_dimensions _ width height Rw Rh Hlen ltac:(lia)) as [G1 G2].
  assert (Emp : width < 7 -> scanSpec pixels width height threshold = []).
  { intros W. unfold scanSpec. apply flat_map_nil. intros row _.
    now rewrite zrange_nil by lia. }
  destruct (Z.lt_ge_cases width (min_int + 3)) as [Zw|Zw].
  { (* width - 3 wraps: no row is scanned *)
    assert (Int64.sub height 3 <= 3) as Hb by lia.
    assert (FindCorners m width height threshold = Returns []) as F
        by (apply imageLoopMap_exit; exact Hb).
    rewrite Emp in R by (unfold min_int in Zw; lia).
    exact (eq_trans F (eq_sym R)). }
  assert (Int64.sub width 3 = width - 3) as Ebw by (now apply sub3_regular).
  assert (Int64.sub width 3 <= max_int - 3) as Hbw by (unfold in_range in Rw; lia).
  pose proof (FindCorners_machine m width height threshold Hbw) as F.
  destruct (Z.lt_ge_cases height (min_int + 3)) as [Zh|Zh].
  { (* height - 3 wraps: the rows hold no candidate *)
    assert (width < 7) as W by lia.
    rewrite flat_map_nil in F
      by (intros row _; rewrite zrange_nil; [reflexivity|lia]).
    rewrite Emp in R by exact W.
    exact (eq_trans F (eq_sym R)). }
  assert (Int64.sub height 3 = height - 3) as Ebh by (now apply sub3_regular).
  rewrite Ebw, Ebh in F.
  assert (S : flat_map
                (fun row => selectRow (acceptedMap m width threshold row) row 0
                                      (zrange 3 (width - 3)))
                (zrange 3 (height - 3))
              = scanSpec pixels width height threshold).
  { unfold scanSpec. apply flat_map_agree. intros row Hrow.
    apply In_zrange in Hrow. apply selectRow_ext. intros c Hc.
    apply In_zrange in Hc.
    unfold acceptedMap, accepted, candidate.
    destruct (index pixels (Int64.add (Int64.mul row width) c)) as [p| |] eqn:Ep.
    - cbn [bind].
      destruct (readCircle pixels (Int64.add (Int64.mul row width) c)
                  (getCircleOffsets width)) as [cps| |] eqn:Ec.
      + cbn [bind]. rewrite (M _ _ Ep), (readCircle_map_agree _ m _ _ _ M Ec).
        now destruct (isCorner p cps threshold).
      + exfalso.
        destruct (interior_candidate pixels width height Hlen Hmax threshold
                    row c ltac:(lia) ltac:(lia)) as [b E].
        unfold candidate in E. rewrite Ep in E. cbn [bind] in E.
        rewrite Ec in E. discriminate.
      + exfalso. exact (readCircle_fuel _ _ _ Ec).
    - exfalso.
      destruct (interior_candidate pixels width height Hlen Hmax threshold
                  row c ltac:(lia) ltac:(lia)) as [b E].
      unfold candidate in E. rewrite Ep in E. discriminate.
    - exfalso. exact (index_fuel _ _ Ep). }
  rewrite S in F. exact (eq_trans F (eq_sym R)).
Qed.

Lemma FindCorners_agrees_witness :
  Z.of_nat (length dots) = 14 * 9 /\
  FindCorners (GoMap.ofSlice dots) 14 9 20 = findCorners dots 14 9 20.
Proof.
  split; [vm_compute; reflexivity|].
  apply (FindCorners_agrees dots (GoMap.ofSlice dots) 14 9 20).
  - unfold in_range, min_int, max_int. lia.
  - unfold in_range, min_int, max_int. lia.
  - vm_compute. reflexivity.
  - vm_compute. discriminate.
  - apply get_ofSlice.
Defined.

(** X19. Only what the map reads matters: two maps that give the same
    value at every key -- one may leave out keys the other binds to 0 --
    give the same result, for every width and height. *)
Theorem FindCorners_reads_only (m m' : GoMap.t) (width height threshold : Z) :
  (forall k, GoMap.get m k = GoMap.get m' k) ->
  FindCorners m width height threshold = FindCorners m' width height threshold.
Proof. intros E. unfold FindCorners. now apply imageLoopMap_ext. Qed.

Lemma get_ofSlice_zeros l k :
  (forall v, In v l -> v = 0) -> GoMap.get (GoMap.ofSlice l) k = 0.
Proof.
  intros Z0. unfold GoMap.get, GoMap.ofSlice.
  destruct (stdpp.base.lookup k _) as [v|] eqn:E; [|reflexivity].
  apply stdpp.fin_maps.lookup_map_seqZ_Some in E. destruct E as [_ E].
  rewrite list_lookup_nth_error in E. apply Z0. eapply nth_error_In. exact E.
Qed.

Lemma FindCorners_reads_only_witness :
  (forall k, GoMap.get (GoMap.ofSlice [0; 0; 0]) k = GoMap.get GoMap.empty k) /\
  FindCorners (GoMap.ofSlice [0; 0; 0]) 14 9 20 = FindCorners GoMap.empty 14 9 20.
Proof.
  assert (E : forall k, GoMap.get (GoMap.ofSlice [0; 0; 0]) k
                        = GoMap.get GoMap.empty k).
  { intros k. rewrite get_empty. apply get_ofSlice_zeros.
    intros v Hv. cbn in Hv. intuition. }
  split; [exact E|]. exact (FindCorners_reads_only _ _ 14 9 20 E).
Defined.

Lemma readCircleMap_empty w offs k :
  get16 (readCircleMap GoMap.empty w offs) k = 0.
Proof.
  unfold get16. generalize (Z.to_nat k) as n.
  induction offs as [|o os IH]; intros [|n]; cbn [readCircleMap nth];
    first [reflexivity | apply get_empty | apply IH].
Qed.

(** X20. A map without pixels has no corner: with a threshold of zero or
    more, and width and height not among the three smallest values of
    [int], [FindCorners] on the empty map returns the empty list. *)
Theorem FindCorners_empty_map (width height threshold : Z) :
  0 <= threshold ->
  min_int + 3 <= width -> in_range width ->
  min_int + 3 <= height -> in_range height ->
  FindCorners GoMap.empty width height threshold = Returns [].
Proof.
  intros Ht Zw Rw Zh Rh. rewrite FindCorners_regular by assumption.
  destruct (scanSpecMap GoMap.empty width height threshold) as [|[x y] l] eqn:E;
    [reflexivity|].
  assert (In (x, y) (scanSpecMap GoMap.empty width height threshold)) as H
      by (rewrite E; now left).
  apply scanSpecMap_In in H. destruct H as [_ [_ H]].
  unfold acceptedMap in H. rewrite isCorner_within_threshold in H; [discriminate|].
  intros k Hk. rewrite readCircleMap_empty, get_empty.
  unfold Int64.sub. change (wrap (0 - 0)) with 0. lia.
Qed.

Lemma FindCorners_empty_map_witness :
  0 <= 20 /\ FindCorners GoMap.empty 14 9 20 = Returns [].
Proof.
  split; [lia|].
  apply (FindCorners_empty_map 14 9 20); try lia.
  - unfold min_int. lia.
  - unfold in_range, min_int, max_int. lia.
  - unfold min_int. lia.
  - unfold in_range, min_int, max_int. lia.
Defined.

(* ================================================================== *)
(** ** The use of the scan in [main] *)

Lemma length_flatten ps : length (flatten ps) = (2 * length ps)%nat.
Proof. induction ps as [|[x y] ps IH]; cbn [flatten length]; lia. Qed.

Lemma nth_error_flatten ps k x y :
  nth_error ps k = Some (x, y) ->
  nth_error (flatten ps) (2 * k) = Some x /\
  nth_error (flatten ps) (2 * k + 1) = Some y.
Proof.
  revert k. induction ps as [|[a b] ps IH]; intros [|k] H; try discriminate.
  - cbn in H. injection H as -> ->. split; reflexivity.
  - cbn [nth_error] in H. destruct (IH k H) as [H1 H2].
    replace (2 * S k)%nat with (S (S (2 * k))) by lia.
    replace (S (S (2 * k)) + 1)%nat with (S (S (2 * k + 1))) by lia.
    cbn [flatten nth_error]. split; assumption.
Qed.

Lemma skipn_nth_error {A} (l : list A) k a :
  nth_error l k = Some a -> skipn k l = a :: skipn (S k) l.
Proof.
  revert k. induction l as [|b l IH]; intros [|k] H; try discriminate.
  - cbn in H. now injection H as ->.
  - cbn [nth_error] in H. cbn [skipn]. rewrite (IH k H). reflexivity.
Qed.

Lemma markLoop_exit cornerList fuel i marks :
  Z.of_nat (length cornerList) <= i ->
  markLoop cornerList fuel i marks = Returns marks.
Proof.
  intros H. destruct fuel; cbn [markLoop];
    destruct (Z.ltb_spec i (Z.of_nat (length cornerList))); (lia || reflexivity).
Qed.

Lemma index_nth_error s k v :
  nth_error s k = Some v -> index s (Z.of_nat k) = Returns v.
Proof.
  intros H. unfold index. destruct (Z.ltb_spec (Z.of_nat k) 0); [lia|].
  now rewrite Nat2Z.id, H.
Qed.

(** On a list of pairs laid flat the marking loop visits the pairs in
    order. *)
Lemma markLoop_pairs ps tail :
  Z.of_nat (length (flatten ps ++ tail)) <= max_int ->
  forall fuel k marks,
    (k <= length ps)%nat ->
    (length ps - k <= fuel)%nat ->
    markLoop (flatten ps ++ tail) fuel (Z.of_nat (2 * k)) marks =
    markLoop (flatten ps ++ tail) (fuel - (length ps - k))
             (Z.of_nat (2 * length ps)) (marks ++ skipn k ps).
Proof.
  intros Hmax. rewrite length_app, length_flatten in Hmax.
  induction fuel as [|fuel IH]; intros k marks Hk Hfuel.
  - assert (k = length ps) as -> by lia.
    rewrite skipn_all, app_nil_r. now replace (length ps - length ps)%nat with 0%nat by lia.
  - destruct (Nat.eq_dec k (length ps)) as [->|Hne].
    { rewrite skipn_all, app_nil_r.
      now replace (length ps - length ps)%nat with 0%nat by lia. }
    destruct (nth_error ps k) as [[x y]|] eqn:E;
      [|apply nth_error_None in E; lia].
    destruct (nth_error_flatten ps k x y E) as [E1 E2].
    cbn [markLoop]. rewrite length_app, length_flatten.
    destruct (Z.ltb_spec (Z.of_nat (2 * k)) (Z.of_nat (2 * length ps + length tail)));
      [|lia].
    rewrite (index_nth_error _ (2 * k) x)
      by (rewrite nth_error_app1; [exact E1 | rewrite length_flatten; lia]).
    cbn [bind].
    assert (Int64.add (Z.of_nat (2 * k)) 1 = Z.of_nat (2 * k + 1)) as ->
        by (unfold Int64.add; rewrite wrap_small;
            unfold in_range, min_int, max_int in *; lia).
    rewrite (index_nth_error _ (2 * k + 1) y)
      by (rewrite nth_error_app1; [exact E2 | rewrite length_flatten; lia]).
    cbn [bind].
    assert (Int64.add (Z.of_nat (2 * k)) 2 = Z.of_nat (2 * S k)) as ->
        by (unfold Int64.add; rewrite wrap_small;
            unfold in_range, min_int, max_int in *; lia).
    rewrite IH by lia.
    rewrite (skipn_nth_error ps k (x, y) E), <- app_assoc. cbn [app].
    f_equal. lia.
Qed.

(** X21. The marking loop of [main] reads the corner list two entries at a
    time: on pairs laid flat, as [findCorners] returns them, it calls [Set]
    once per pair, in order; on a list with one entry left over it panics
    on the read of the missing second coordinate. *)
Theorem markLoop_round_trip (ps : list (Z * Z)) :
  Z.of_nat (length (flatten ps)) < max_int ->
  markLoop (flatten ps) (length (flatten ps)) 0 [] = Returns ps /\
  forall x, markLoop (flatten ps ++ [x]) (length (flatten ps ++ [x])) 0 [] = Panics.
Proof.
  intros Hmax. pose proof (length_flatten ps) as LF. split.
  - pose proof (markLoop_pairs ps [] ltac:(rewrite app_nil_r; lia)
                  (length (flatten ps)) 0 []
                  ltac:(lia) ltac:(rewrite length_flatten; lia)) as H.
    rewrite app_nil_r in H. change (Z.of_nat (2 * 0)) with 0 in H.
    rewrite H. cbn [skipn app]. apply markLoop_exit. rewrite length_flatten. lia.
  - intros x.
    pose proof (markLoop_pairs ps [x]
                  ltac:(rewrite length_app; cbn [length]; lia)
                  (length (flatten ps ++ [x])) 0 []
                  ltac:(lia)
                  ltac:(rewrite length_app, length_flatten; cbn [length]; lia)) as H.
    change (Z.of_nat (2 * 0)) with 0 in H. rewrite H. cbn [skipn app].
    rewrite length_app, length_flatten. cbn [length].
    replace (2 * length ps + 1 - (length ps - 0))%nat with (S (length ps)) by lia.
    cbn [markLoop]. rewrite length_app, length_flatten. cbn [length].
    destruct (Z.ltb_spec (Z.of_nat (2 * length ps)) (Z.of_nat (2 * length ps + 1)));
      [|lia].
    rewrite (index_nth_error _ (2 * length ps) x).
    2:{ rewrite nth_error_app2 by (rewrite length_flatten; lia).
        rewrite length_flatten.
        now replace (2 * length ps - 2 * length ps)%nat with 0%nat by lia. }
    cbn [bind]. rewrite index_out_of_bounds; [reflexivity|].
    right. rewrite length_app, length_flatten. cbn [length].
    unfold Int64.add. rewrite wrap_small by (unfold in_range, min_int, max_int in *; lia).
    lia.
Qed.

Lemma markLoop_round_trip_witness :
  Z.of_nat (length (flatten [(3, 4); (8, 4)])) < max_int /\
  markLoop [3; 4; 8; 4] 4 0 [] = Returns [(3, 4); (8, 4)] /\
  markLoop [3; 4; 8] 3 0 [] = Panics.
Proof.
  assert (M : Z.of_nat (length (flatten [(3, 4); (8, 4)])) < max_int)
    by (vm_compute; reflexivity).
  split; [exact M|].
  destruct (markLoop_round_trip [(3, 4); (8, 4)] M) as [A _].
  split; [exact A|]. vm_compute. reflexivity.
Defined.

Lemma firstn_succ_nth_error {A} (l : list A) k a :
  nth_error l k = Some a -> firstn (S k) l = firstn k l ++ [a].
Proof.
  revert k. induction l as [|b l IH]; intros [|k] H; try discriminate.
  - cbn in H. now injection H as ->.
  - cbn [nth_error] in H. cbn [firstn app]. now rewrite (IH k H).
Qed.

Lemma fillLoop_exit pix w h fuel index pixList :
  Int64.mul w h <= index -> fillLoop pix w h fuel index pixList = Returns pixList.
Proof.
  intros H. destruct fuel; cbn [fillLoop];
    destruct (Z.ltb_spec index (Int64.mul w h)); (lia || reflexivity).
Qed.

(** The copying loop turns the zeroed slice into the gray bytes, entry by
    entry. *)
Lemma fillLoop_copies pix w h (n : nat) :
  Int64.mul w h = Z.of_nat n -> Z.of_nat n <= max_int ->
  (n <= length pix)%nat ->
  forall fuel k,
    (k <= n)%nat -> (n - k <= fuel)%nat ->
    fillLoop pix w h fuel (Z.of_nat k)
             (map (fun b => Z.of_N (Byte.to_N b)) (firstn k pix) ++ repeat 0 (n - k))
    = Returns (map (fun b => Z.of_N (Byte.to_N b)) (firstn n pix)).
Proof.
  intros Hn Hmax Hpix.
  induction fuel as [|fuel IH]; intros k Hk Hfuel.
  - assert (k = n) as -> by lia. rewrite fillLoop_exit by lia.
    replace (n - n)%nat with 0%nat by lia. cbn [repeat]. now rewrite app_nil_r.
  - destruct (Nat.eq_dec k n) as [->|Hne].
    { rewrite fillLoop_exit by lia.
      replace (n - n)%nat with 0%nat by lia. cbn [repeat]. now rewrite app_nil_r. }
    destruct (nth_error pix k) as [b|] eqn:E; [|apply nth_error_None in E; lia].
    cbn [fillLoop]. rewrite Hn. destruct (Z.ltb_spec (Z.of_nat k) (Z.of_nat n)); [|lia].
    unfold indexByte. destruct (Z.ltb_spec (Z.of_nat k) 0); [lia|].
    rewrite Nat2Z.id, E. cbn [bind].
    assert (Lk : length (map (fun b => Z.of_N (Byte.to_N b)) (firstn k pix)) = k)
      by (rewrite length_map, length_firstn; lia).
    unfold assign. rewrite length_app, repeat_length, Lk.
    destruct (Z.ltb_spec (Z.of_nat k) 0); [lia|].
    destruct (Z.leb_spec (Z.of_nat (k + (n - k))) (Z.of_nat k)); [lia|].
    cbn [orb bind]. rewrite Nat2Z.id.
    rewrite firstn_app, Lk, Nat.sub_diag, firstn_O, app_nil_r.
    rewrite firstn_all2 by lia.
    rewrite skipn_app, Lk, skipn_all2 by lia. cbn [app].
    replace (S k - k)%nat with 1%nat by lia.
    replace (n - k)%nat with (S (n - S k)) by lia. cbn [repeat skipn].
    assert (Int64.add (Z.of_nat k) 1 = Z.of_nat (S k)) as ->
        by (unfold Int64.add; rewrite wrap_small;
            unfold in_range, min_int, max_int in *; lia).
    rewrite <- (IH (S k)) by lia. f_equal.
    rewrite (firstn_succ_nth_error pix k b E), map_app. cbn [map].
    now rewrite <- app_assoc.
Qed.

(** The scan of the specification selects at most [(width - 3) / 4]
    columns in each of [height - 6] rows. *)
Lemma scanSpec_count pixels width height t :
  Z.of_nat (length (scanSpec pixels width height t))
  <= Z.max 0 (height - 6) * Z.max 0 ((width - 3) / 4).
Proof.
  unfold scanSpec. eapply Z.le_trans.
  - apply (flat_map_length_bound _ _ (Z.max 0 ((width - 3) / 4))).
    intros row _.
    pose proof (selectRow_length_bound (accepted pixels width t row) row
                  (width - 3) (Z.to_nat (width - 3 - 3)) 3 ltac:(lia)) as B.
    replace (width - 3 - 3 + 3) with (width - 3) in B by lia. exact B.
  - unfold zrange. rewrite length_map, length_seq.
    apply Z.mul_le_mono_nonneg_r; lia.
Qed.

Lemma scanSpec_fits pixels width height t :
  0 <= width * height <= max_int ->
  Z.of_nat (length (flatten (scanSpec pixels width height t))) < max_int.
Proof.
  intros H. rewrite length_flatten.
  pose proof (scanSpec_count pixels width height t) as C.
  unfold max_int in *.
  destruct (Z.le_gt_cases height 6) as [Hh|Hh];
    [replace (Z.max 0 (height - 6)) with 0 in C by lia; lia|].
  destruct (Z.le_gt_cases width 6) as [Hw|Hw].
  { assert ((width - 3) / 4 <= 0).
    { assert ((width - 3) / 4 <= 3 / 4) by (apply Z.div_le_mono; lia).
      change (3 / 4) with 0 in *. lia. }
    replace (Z.max 0 ((width - 3) / 4)) with 0 in C by lia. lia. }
  assert (0 <= (width - 3) / 4) by (apply Z.div_pos; lia).
  assert (4 * ((width - 3) / 4) <= width - 3) by (apply Z.mul_div_le; lia).
  replace (Z.max 0 (height - 6)) with (height - 6) in C by lia.
  replace (Z.max 0 ((width - 3) / 4)) with ((width - 3) / 4) in C by lia.
  assert ((height - 6) * (4 * ((width - 3) / 4)) <= (height - 6) * (width - 3))
    by (apply Z.mul_le_mono_nonneg_l; lia).
  assert ((height - 6) * (width - 3) <= width * height) by nia.
  nia.
Qed.

(** X22. In [main], on a gray buffer of [w * h] bytes, the steps from the
    copy of the pixels to the marking of the corners run without a panic:
    the scan gets the bytes as intensities between 0 and 255, and [Set] is
    called once for each corner of the scan at threshold 20, each of them at
    least three pixels inside the image. *)
Theorem mainMarks_runs (pix : list byte) (w h : Z) :
  in_range w -> in_range h ->
  Z.of_nat (length pix) = w * h ->
  Z.of_nat (length pix) <= max_int ->
  mainMarks pix w h
    = Returns (scanSpec (map (fun b => Z.of_N (Byte.to_N b)) pix) w h 20) /\
  findCorners (map (fun b => Z.of_N (Byte.to_N b)) pix) w h 20
    = Returns (flatten (scanSpec (map (fun b => Z.of_N (Byte.to_N b)) pix) w h 20)) /\
  (forall v, In v (map (fun b => Z.of_N (Byte.to_N b)) pix) -> 0 <= v <= 255) /\
  (forall x y, In (x, y) (scanSpec (map (fun b => Z.of_N (Byte.to_N b)) pix) w h 20) ->
     3 <= x <= w - 4 /\ 3 <= y <= h - 4).
Proof.
  intros Rw Rh Hlen Hmax.
  set (P := map (fun b => Z.of_N (Byte.to_N b)) pix).
  assert (LP : Z.of_nat (length P) = w * h) by (unfold P; now rewrite length_map).
  assert (MP : Z.of_nat (length P) <= max_int) by (unfold P; now rewrite length_map).
  pose proof (findCorners_returns P w h LP MP 20 Rw Rh) as F.
  assert (Hn : Int64.mul w h = Z.of_nat (length pix)).
  { unfold Int64.mul. rewrite <- Hlen. apply wrap_small.
    unfold in_range, min_int, max_int in *. lia. }
  split; [|split; [exact F|split]].
  - unfold mainMarks, makeSlice. rewrite Hn.
    destruct (Z.ltb_spec (Z.of_nat (length pix)) 0); [lia|]. cbn [bind].
    rewrite Nat2Z.id.
    pose proof (fillLoop_copies pix w h (length pix) Hn Hmax (Nat.le_refl _)
                  (length pix) 0%nat ltac:(lia) ltac:(lia)) as C.
    rewrite firstn_O, Nat.sub_0_r in C. cbn [map app] in C.
    change (Z.of_nat 0) with 0 in C. rewrite C. cbn [bind].
    rewrite firstn_all. fold P. rewrite F. cbn [bind].
    apply (markLoop_round_trip (scanSpec P w h 20)).
    apply scanSpec_fits. lia.
  - intros v Hv. unfold P in Hv. apply in_map_iff in Hv.
    destruct Hv as [b [<- _]].
    pose proof (Byte.to_N_bounded b). lia.
  - intros x y Hin. apply scanSpec_In in Hin. lia.
Qed.

Lemma mainMarks_runs_witness :
  Z.of_nat (length dotsGray) = 14 * 9 /\
  mainMarks dotsGray 14 9 = Returns [(3, 4); (8, 4)].
Proof.
  split; [vm_compute; reflexivity|].
  destruct (mainMarks_runs dotsGray 14 9) as [E _].
  - unfold in_range, min_int, max_int. lia.
  - unfold in_range, min_int, max_int. lia.
  - vm_compute. reflexivity.
  - vm_compute. discriminate.
  - rewrite E. vm_compute. reflexivity.
Defined.
